(** * GitButler: the MCP [commit] tool and the desktop [StackService]

    A shallow embedding of

    - [packages/mcp/src/tools/client/commit.ts]: the [commit] tool, which
      validates its parameters, builds the [--diff-spec] argument, resolves
      the target branch against the project's stacks and dispatches the
      [but commit] command;
    - the desktop [StackService] ([$lib/stacks/stackService.svelte]): the
      backend endpoints with the cache tags they provide and invalidate,
      and the name-keyed, sorted collection of the branches of a stack.

    Strings are byte strings (the UTF-8 text of the JavaScript strings);
    JavaScript exceptions are an explicit outcome; the calls made to the
    backend are recorded in a log that is threaded through the code. *)

From Stdlib Require Import ZArith Lia Ascii String List DecimalString.
From stdpp Require Import gmap strings list fin_maps sorting.

(* ===================================================================== *)
(** * JavaScript built-ins used by the sources *)
(* ===================================================================== *)

Module Js.

(** [new Error(message)]: the only error class the sources throw. *)
Record Error := mkError { message : string }.

(** A call either returns a value or throws. *)
Inductive Outcome (A : Type) : Type :=
| Return (a : A)
| Throw (e : Error).
Arguments Return {A} a.
Arguments Throw {A} e.

(** [haystack.includes(needle)] on strings. *)
Fixpoint includes (haystack needle : string) : bool :=
  match haystack with
  | EmptyString => String.prefix needle EmptyString
  | String _ rest => String.prefix needle haystack || includes rest needle
  end.

(** [Array.prototype.at]: a negative index counts back from the end of the
    array; outside of the array the result is [undefined]. *)
Definition at_ {A : Type} (l : list A) (index : Z) : option A :=
  let len := Z.of_nat (length l) in
  let k := if (0 <=? index)%Z then index else (len + index)%Z in
  if ((k <? 0) || (len <=? k))%Z then None else l !! Z.to_nat k.

(** ** [Array.prototype.sort] with a comparison function *)

Section Sort.

Context {A : Type} (compareFn : A -> A -> Z).

(** [item] set before the first element that it does not come after. *)
Fixpoint sortInsert (item : A) (sorted : list A) : list A :=
  match sorted with
  | [] => [item]
  | x :: rest =>
      if (compareFn item x <=? 0)%Z then item :: x :: rest
      else x :: sortInsert item rest
  end.

(** The sort is stable: elements that compare as equal keep the order
    they had.  For a consistent comparison function that fixes the
    result, whatever the algorithm of the host. *)
Fixpoint sort (l : list A) : list A :=
  match l with
  | [] => []
  | x :: rest => sortInsert x (sort rest)
  end.

End Sort.

(** ** [JSON.stringify] on the values the sources build *)

#[local] Unset Elimination Schemes.
Inductive JsonValue : Type :=
| JString (s : string)
| JNumber (n : Z)
| JArray (items : list JsonValue)
| JObject (fields : list (string * JsonValue)).
#[local] Set Elimination Schemes.

Definition hexDigit (n : N) : ascii :=
  if (n <? 10)%N then ascii_of_N (48 + n) else ascii_of_N (87 + n).

(** One code unit of [QuoteJSONString]: the two-character escapes, [\u00xx]
    for the other control characters, and every other character as it is. *)
Definition quoteChar (c : ascii) : string :=
  let n := N_of_ascii c in
  if (n =? 8)%N then "\b"
  else if (n =? 9)%N then "\t"
  else if (n =? 10)%N then "\n"
  else if (n =? 12)%N then "\f"
  else if (n =? 13)%N then "\r"
  else if (n =? 34)%N then String "\" (String c EmptyString)
  else if (n =? 92)%N then "\\"
  else if (n <? 32)%N then
    "\u00" +:+ String (hexDigit (n / 16)) (String (hexDigit (n mod 16)) EmptyString)
  else String c EmptyString.

Fixpoint quoteBody (s : string) : string :=
  match s with
  | EmptyString => EmptyString
  | String c rest => quoteChar c +:+ quoteBody rest
  end.

Definition dquote : string := String (ascii_of_N 34) EmptyString.

Definition quoteJSONString (s : string) : string :=
  dquote +:+ quoteBody s +:+ dquote.

(** Integers print in decimal (the numbers of the sources are small line
    counts). *)
Definition numberToString (n : Z) : string :=
  NilZero.string_of_int (Z.to_int n).

Fixpoint stringify (v : JsonValue) : string :=
  match v with
  | JString s => quoteJSONString s
  | JNumber n => numberToString n
  | JArray items => "[" +:+ String.concat "," (map stringify items) +:+ "]"
  | JObject fields =>
      "{" +:+ String.concat ","
                (map (fun kv => quoteJSONString (fst kv) +:+ ":" +:+ stringify (snd kv))
                     fields)
          +:+ "}"
  end.

End Js.


(* ===================================================================== *)
(** * The MCP [commit] tool ([packages/mcp/src/tools/client/commit.ts]) *)
(* ===================================================================== *)

Module Mcp.

Import Js.

(** ** Data *)

(** A head of a stack ([status.ts], which declares it, is not among the
    sources); [commit] reads its [name] only. *)
Record StackHead := { head_name : string }.

(** A stack, as [listStacks] returns it: [stack.id] and [stack.heads]. *)
Record Stack := { stack_id : string; heads : list StackHead }.

(** A branch of a stack, as [listStackBranches] returns it; [commit] reads
    [b.name] and [branch.archived]. *)
Record StackBranch := { name : string; archived : bool }.

(** Modelled from the spec: [HunkHeader], whose declaration is not among
    the sources.  Section 3: the start and the length of a range of old
    lines and of a range of new lines. *)
Record HunkHeader := {
  oldStart : Z; oldLines : Z; newStart : Z; newLines : Z
}.

(** [DiffSpec] (declared in [shared.ts]), with the two properties [commit]
    sets. *)
Record DiffSpec := { pathBytes : string; hunkHeaders : list HunkHeader }.

(** [CommitParamsSchema]; [all] and [filePaths] default to [false] and
    [[]]. *)
Record CommitParams := {
  project_directory : string;
  message : string;
  all : bool;
  filePaths : list string;
  branch : string
}.

(** The JavaScript objects behind the records, for [JSON.stringify]. *)
Definition hunkHeaderToJson (h : HunkHeader) : JsonValue :=
  JObject [("oldStart", JNumber (oldStart h)); ("oldLines", JNumber (oldLines h));
           ("newStart", JNumber (newStart h)); ("newLines", JNumber (newLines h))].

Definition diffSpecToJson (d : DiffSpec) : JsonValue :=
  JObject [("pathBytes", JString (pathBytes d));
           ("hunkHeaders", JArray (map hunkHeaderToJson (hunkHeaders d)))].

(** ** The backend and the calls made to it *)

(** What the imported [listStacks], [listStackBranches] (of [status.ts]) and
    [executeGitButlerCommand] (of [command.ts]) answer; each of them may
    throw. *)
Record Backend := {
  backend_listStacks : string -> Outcome (list Stack);
  backend_listStackBranches : string -> string -> Outcome (list StackBranch);
  backend_execute : string -> list string -> Outcome string
}.

Inductive Call : Type :=
| CallListStacks (project_directory : string)
| CallListStackBranches (project_directory stack_id : string)
| CallExecute (project_directory : string) (args : list string).

(** A computation reads the log of the calls made so far and returns its
    outcome with the extended log. *)
Definition M (A : Type) : Type := list Call -> Outcome A * list Call.

Definition ret {A} (a : A) : M A := fun log => (Return a, log).
Definition throw {A} (e : Error) : M A := fun log => (Throw e, log).
Definition bind {A B} (m : M A) (k : A -> M B) : M B :=
  fun log =>
    match m log with
    | (Return a, log') => k a log'
    | (Throw e, log') => (Throw e, log')
    end.

Notation "'let!' x ':=' m 'in' k" := (bind m (fun x => k))
  (at level 10, x name, m at level 200, k at level 200, only parsing).

Definition run {A} (m : M A) : Outcome A * list Call := m [].

Section WithBackend.

Variable B : Backend.

Definition listStacks (dir : string) : M (list Stack) :=
  fun log => (backend_listStacks B dir, log ++ [CallListStacks dir]).

Definition listStackBranches (dir id : string) : M (list StackBranch) :=
  fun log => (backend_listStackBranches B dir id, log ++ [CallListStackBranches dir id]).

Definition executeGitButlerCommand (dir : string) (args : list string) : M string :=
  fun log => (backend_execute B dir args, log ++ [CallExecute dir args]).

(** ** [commit] *)

(** Lines 35-41: the loop that pushes one [DiffSpec] per path onto
    [diffSpec]. *)
Definition buildDiffSpec (paths : list string) : list DiffSpec :=
  fold_left (fun diffSpec filePath =>
               diffSpec ++ [{| pathBytes := filePath; hunkHeaders := [] |}])
            paths [].

(** Lines 53-84: the loop over the stacks, with its early returns, and the
    [throw] that follows it. *)
Fixpoint commitToStacks (params : CommitParams) (args : list string)
    (stacks : list Stack) : M string :=
  match stacks with
  | [] =>
      throw (mkError ("Branch " +:+ branch params +:+ " not found in any stack"))
  | stack :: rest =>
      let heads := map head_name (heads stack) in
      if existsb (String.eqb (branch params)) heads then
        if length heads =? 1 then
          executeGitButlerCommand (project_directory params)
            (args ++ ["-s"; branch params])
        else
          let! stackBranches :=
            listStackBranches (project_directory params) (stack_id stack) in
          if length stackBranches =? 0 then
            throw (mkError ("No branches found in stack " +:+ stack_id stack))
          else
            match find (fun b => String.eqb (name b) (branch params)) stackBranches with
            | None =>
                throw (mkError ("Branch " +:+ branch params +:+ " not found in stack "
                                +:+ stack_id stack))
            | Some branch_ =>
                if archived branch_ then
                  throw (mkError ("Branch " +:+ branch params +:+ " is archived"))
                else
                  executeGitButlerCommand (project_directory params)
                    (args ++ ["-s"; branch params])
            end
      else commitToStacks params args rest
  end.

Definition commit (params : CommitParams) : M string :=
  let args := ["commit"; "--message"; message params] in
  let! _ :=
    if all params then
      if 0 <? length (filePaths params) then
        throw (mkError "Cannot use --all and file paths together")
      else ret tt
    else ret tt in
  let args :=
    if 0 <? length (filePaths params) then
      let diffSpec := buildDiffSpec (filePaths params) in
      let diffSpecJson := stringify (JArray (map diffSpecToJson diffSpec)) in
      args ++ ["--diff-spec"; diffSpecJson]
    else args in
  let! stacks := listStacks (project_directory params) in
  if length stacks =? 0 then throw (mkError "No stacks found")
  else commitToStacks params args stacks.

End WithBackend.

(** ** Notions the properties are stated with *)

(** The parameters pass the check of lines 28-32. *)
Definition accepted (params : CommitParams) : Prop :=
  ~ (all params = true /\ filePaths params <> []).

(** [heads.includes(branchName)] for the head names of a stack. *)
Definition hasHead (branchName : string) (stack : Stack) : bool :=
  existsb (String.eqb branchName) (map head_name (heads stack)).

(** The stack the loop of [commit] stops at: the first one, in listing
    order, whose head names include the target. *)
Definition firstStackWith (branchName : string) (stacks : list Stack) : option Stack :=
  find (hasHead branchName) stacks.

(** [b.name === branchName], the predicate of [stackBranches.find]. *)
Definition isNamed (branchName : string) (b : StackBranch) : bool :=
  String.eqb (name b) branchName.

(** The value of [args] when [commit] lists the stacks (line 47). *)
Definition commitArgs (params : CommitParams) : list string :=
  ["commit"; "--message"; message params] ++
  (if 0 <? length (filePaths params) then
     ["--diff-spec";
      stringify (JArray (map diffSpecToJson (buildDiffSpec (filePaths params))))]
   else []).

(** The arguments of the dispatched command: [args] after
    [args.push('-s', params.branch)]. *)
Definition dispatchArgs (params : CommitParams) : list string :=
  commitArgs params ++ ["-s"; branch params].

(** The errors [commit] throws itself. *)
Definition allAndFilePathsError : Error :=
  mkError "Cannot use --all and file paths together".
Definition noStacksError : Error := mkError "No stacks found".
Definition noBranchesError (stack : Stack) : Error :=
  mkError ("No branches found in stack " +:+ stack_id stack).
Definition archivedError (params : CommitParams) : Error :=
  mkError ("Branch " +:+ branch params +:+ " is archived").
Definition notInAnyStackError (params : CommitParams) : Error :=
  mkError ("Branch " +:+ branch params +:+ " not found in any stack").

End Mcp.


(* ===================================================================== *)
(** * The desktop [StackService] ([$lib/stacks/stackService.svelte]) *)
(* ===================================================================== *)

Module StackService.

(** ** Endpoints and their tags ([injectEndpoints]) *)

(** The members of [ReduxTag] the endpoints name ([$lib/state/tags] is not
    among the sources). *)
Inductive ReduxTag : Type := Stacks | StackBranches | Commit | CommitChanges.

#[global] Instance ReduxTag_eq_dec : EqDecision ReduxTag.
Proof. solve_decision. Defined.

Inductive Endpoint : Type :=
| getStacks
| createStack
| getStackBranches
| createCommit
| getCommitChanges
| updateCommitMessage.

(** The backend command of each endpoint's [query]. *)
Definition command (e : Endpoint) : string :=
  match e with
  | getStacks => "stacks"
  | createStack => "create_virtual_branch"
  | getStackBranches => "stack_branches"
  | createCommit => "create_commit_from_worktree_changes"
  | getCommitChanges => "changes_in_commit"
  | updateCommitMessage => "update_commit_message"
  end.

(** [providesTags] of the queries (a mutation provides none). *)
Definition providesTags (e : Endpoint) : list ReduxTag :=
  match e with
  | getStacks => [Stacks]
  | getStackBranches => [StackBranches]
  | getCommitChanges => [CommitChanges]
  | createStack | createCommit | updateCommitMessage => []
  end.

(** [invalidatesTags] of the mutations (a query invalidates none). *)
Definition invalidatesTags (e : Endpoint) : list ReduxTag :=
  match e with
  | createStack => [Stacks]
  | createCommit => [StackBranches; Commit]
  | updateCommitMessage => [StackBranches]
  | getStacks | getStackBranches | getCommitChanges => []
  end.

(** ** The cache behind the endpoints *)

(** Modelled from the spec: the cache of [ClientState.backendApi], which
    is not among the sources.  Section 4.4: every cached read is tagged
    with the categories it depends on and is in one of the states
    Uninitialized, Fetching, Fresh, Stale. *)
Inductive Status : Type := Uninitialized | Fetching | Fresh | Stale.

(** Modelled from the spec: an entry of the cache of
    [ClientState.backendApi].  Section 4.4: a cached read with its tags and
    its state. *)
Record CacheEntry := { tags : list ReduxTag; status : Status }.

(** Modelled from the spec: the cache of [ClientState.backendApi] is keyed
    by command name and parameters (section 9). *)
Abbreviation Cache := (gmap (string * string) CacheEntry).

(** The entry a query endpoint creates carries the tags it provides. *)
Definition queryEntry (e : Endpoint) (st : Status) : CacheEntry :=
  {| tags := providesTags e; status := st |}.

(** Modelled from the spec: the test of [ClientState.backendApi] that a
    read depends on a mutation.  Section 4.4: the read's tags and the tags
    the mutation declares overlap. *)
Definition overlaps (ts invalidated : list ReduxTag) : bool :=
  existsb (fun t => bool_decide (t ∈ invalidated)) ts.

(** Modelled from the spec: invalidation in [ClientState.backendApi].
    Section 4.4: a read goes from Fresh to Stale when a mutation declaring
    an overlapping tag commits; nothing else is touched. *)
Definition invalidateEntry (invalidated : list ReduxTag) (e : CacheEntry) : CacheEntry :=
  match status e with
  | Fresh =>
      if overlaps (tags e) invalidated
      then {| tags := tags e; status := Stale |}
      else e
  | _ => e
  end.

(** Modelled from the spec: dispatch of a mutation through
    [ClientState.backendApi].  Section 4.4: the tags are invalidated on
    dispatch success, not on a dispatch attempt. *)
Definition dispatchMutation (m : Endpoint) (success : bool) (cache : Cache) : Cache :=
  if success then invalidateEntry (invalidatesTags m) <$> cache else cache.

(** ** The branches of a stack *)

(** Modelled from the spec: [WorkspaceBranch] of [$lib/branches/v3], which
    is not among the sources.  Section 3: a [name] and a [state] that is
    a tagged union, stacked with commits or empty. *)
Inductive BranchState : Type :=
| StackedBranch (localAndRemote : list string)
| EmptyBranch.

Record WorkspaceBranch := { name : string; state : BranchState }.

Section BranchAdapter.

(** [String.prototype.localeCompare]: negative, zero or positive; its
    collation belongs to the host. *)
Variable localeCompare : string -> string -> Z.

(** [branchAdapter]'s two options. *)
Definition selectId (change : WorkspaceBranch) : string := name change.
Definition sortComparer (a b : WorkspaceBranch) : Z :=
  localeCompare (name a) (name b).

(** Modelled from the spec: the state of the entity adapter that
    [createEntityAdapter] of Redux Toolkit builds, which is not among the
    sources.  Sections 4.4 and 9: the records under their natural key,
    and beside them the keys in the order of the sorted view. *)
Record EntityState := {
  ids : list string;
  entities : gmap string WorkspaceBranch
}.

(** Modelled from the spec: [getInitialState] of the entity adapter; no
    record is stored yet. *)
Definition getInitialState : EntityState := {| ids := []; entities := ∅ |}.

(** Modelled from the spec: [selectAll] of the entity adapter's selectors,
    the sorted view: the records of the keys, in the order of the keys. *)
Definition selectAll (st : EntityState) : list WorkspaceBranch :=
  omap (fun id => entities st !! id) (ids st).

(** Modelled from the spec: how the entity adapter places a record in an
    array that is sorted already: after the records that do not come
    after it. *)
Fixpoint insertSorted (item : WorkspaceBranch) (sortedEntities : list WorkspaceBranch)
    : list WorkspaceBranch :=
  match sortedEntities with
  | [] => [item]
  | e :: rest =>
      if (0 <=? sortComparer item e)%Z then e :: insertSorted item rest
      else item :: e :: rest
  end.

(** Modelled from the spec: [addMany] of the entity adapter.  The records
    whose key the state does not hold yet are stored under their key; into
    an empty state they come in the order [Array.prototype.sort] gives the
    added array with [sortComparer], so that records the comparer ties
    keep the order they were added in. *)
Definition addMany (st : EntityState) (newEntities : list WorkspaceBranch) : EntityState :=
  let models := filter (fun model => selectId model ∉ ids st) newEntities in
  match models with
  | [] => st
  | _ :: _ =>
      {| ids :=
           selectId <$>
             match selectAll st with
             | [] => Js.sort sortComparer models
             | _ :: _ =>
                 fold_left (fun sorted item => insertSorted item sorted) models
                           (selectAll st)
             end;
         entities :=
           fold_left (fun acc item => <[selectId item := item]> acc) models (entities st) |}
  end.

(** The name of [b] and [n] compare as equal, either way round. *)
Definition tiedWith (n : string) (b : WorkspaceBranch) : Prop :=
  (localeCompare (name b) n <= 0)%Z /\ (localeCompare n (name b) <= 0)%Z.

#[global] Instance tiedWith_dec (n : string) (b : WorkspaceBranch) : Decision (tiedWith n b).
Proof. unfold tiedWith. apply _. Defined.

(** A record with the key it is stored under. *)
Definition keyed (e : WorkspaceBranch) : string * WorkspaceBranch := (selectId e, e).

(** [transformResponse] of the [getStackBranches] endpoint. *)
Definition transformResponse (response : list WorkspaceBranch) : EntityState :=
  addMany getInitialState response.

(** What the [stack_branches] command answers for a project and a stack. *)
Variable stack_branches : string -> string -> list WorkspaceBranch.

(** [StackService.getStackBranches]: the query result under
    [branchSelectors.selectAll]. *)
Definition getStackBranchesView (projectId stackId : string) : list WorkspaceBranch :=
  selectAll (transformResponse (stack_branches projectId stackId)).

(** [StackService.getBranchByIndex]: the query result under
    [branchSelectors.selectAll(result).at(index)]. *)
Definition getBranchByIndex (projectId stackId : string) (index : Z)
    : option WorkspaceBranch :=
  Js.at_ (selectAll (transformResponse (stack_branches projectId stackId))) index.

End BranchAdapter.

End StackService.


(* ===================================================================== *)
(** * Concrete inputs *)
(* ===================================================================== *)

Module Examples.

Import Js Mcp.

(** The scenario of the spec's section 8: stack A with the head [main],
    stack B with the heads [feature-1] and [feature-2]. *)
Definition stackA : Stack :=
  {| stack_id := "A"; heads := [ {| head_name := "main" |} ] |}.

Definition stackB : Stack :=
  {| stack_id := "B";
     heads := [ {| head_name := "feature-1" |}; {| head_name := "feature-2" |} ] |}.

(** A backend that lists [stacks], answers every branch listing with
    [stackBranches] and runs every command. *)
Definition backend (stacks : list Stack) (stackBranches : Outcome (list StackBranch))
    : Backend :=
  {| backend_listStacks := fun _ => Return stacks;
     backend_listStackBranches := fun _ _ => stackBranches;
     backend_execute := fun _ _ => Return "" |}.

Definition params (branchName : string) (all_ : bool) (paths : list string)
    : CommitParams :=
  {| project_directory := "/repo"; message := "Fix the parser";
     all := all_; filePaths := paths; branch := branchName |}.

(** The branches of stack B, the first of them archived. *)
Definition branchesOfB : list StackBranch :=
  [ {| name := "feature-1"; archived := true |};
    {| name := "feature-2"; archived := false |} ].

End Examples.

Module StackExamples.

Import StackService.

(** A comparison for [localeCompare] to be tried with: the order of the
    code units. *)
Definition codeUnitCompare (a b : string) : Z :=
  match String.compare a b with
  | Lt => -1
  | Eq => 0
  | Gt => 1
  end.

Definition featureBranch (branchName : string) : WorkspaceBranch :=
  {| name := branchName; state := EmptyBranch |}.

(** A backend whose [stack_branches] answers two branches, out of order. *)
Definition twoBranches (projectId stackId : string) : list WorkspaceBranch :=
  [featureBranch "feature-2"; featureBranch "feature-1"].

(** The name "café" spelt with the one code point U+00E9, and spelt with
    the letter e followed by the combining accent U+0301: different
    strings that are canonically equivalent. *)
Definition cafePrecomposed : string :=
  "caf" +:+ String (ascii_of_N 195) (String (ascii_of_N 169) EmptyString).

Definition cafeDecomposed : string :=
  "cafe" +:+ String (ascii_of_N 204) (String (ascii_of_N 129) EmptyString).

(** The letter e with a combining accent, put together into U+00E9. *)
Fixpoint composeAccent (s : string) : string :=
  match s with
  | EmptyString => EmptyString
  | String c rest =>
      match rest with
      | String c2 (String c3 rest') =>
          if ((N_of_ascii c =? 101) && (N_of_ascii c2 =? 204) && (N_of_ascii c3 =? 129))%N
          then String (ascii_of_N 195) (String (ascii_of_N 169) (composeAccent rest'))
          else String c (composeAccent rest)
      | _ => String c (composeAccent rest)
      end
  end.

(** A comparison for [localeCompare] to be tried with, which takes the
    two spellings of an accented e as equal, as a host's collation takes
    canonically equivalent strings. *)
Definition canonicalCompare (a b : string) : Z :=
  codeUnitCompare (composeAccent a) (composeAccent b).

(** The cache key of a [changes_in_commit] query. *)
Definition commitChangesKey : string * string :=
  ("changes_in_commit", "project-1/commit-1").

(** A cache holding the fresh result of that query. *)
Definition commitChangesCache : gmap (string * string) CacheEntry :=
  {[ commitChangesKey := queryEntry getCommitChanges Fresh ]}.

End StackExamples.

(* ===================================================================== *)
(** * The tool and prompt handlers of [commit.ts] *)
(* ===================================================================== *)

Module McpTool.

Import Js Mcp.

(** ** Request parameters *)

(** A value of a [Record<string, unknown>], as far as the handlers look at
    it: [undefined], a string, or a value whose [typeof] is neither. *)
Inductive JsValue : Type :=
| JsUndefined
| JsString (s : string)
| JsOther.

(** [params.key]; a missing key reads as [undefined]. *)
Definition prop (params : gmap string JsValue) (key : string) : JsValue :=
  default JsUndefined (params !! key).

(** ** Results *)

(** [{ type: 'text', text }]. *)
Record TextContent := { type : string; text : string }.

(** [CallToolResult]: [content] and the optional [isError]. *)
Record CallToolResult := { content : list TextContent; isError : option bool }.

(** [GetPromptResult] and its messages. *)
Record PromptMessage := { role : string; prompt_content : TextContent }.
Record GetPromptResult := { messages : list PromptMessage }.

(** ** The tool *)

Record ToolListing := {
  tool_name : string;
  tool_description : string;
  inputSchema : JsonValue
}.

Record PromptArgument := {
  argument_name : string;
  argument_description : string;
  required : bool
}.

Record Prompt := {
  prompt_name : string;
  prompt_description : string;
  arguments : list PromptArgument
}.

(** [try { body } catch (error) { handler }]. *)
Definition tryCatch {A} (body : M A) (handler : Error -> M A) : M A :=
  fun log =>
    match body log with
    | (Throw error, log') => handler error log'
    | returned => returned
    end.

(** The outcome of a call that reaches no backend. *)
Definition liftOutcome {A} (o : Outcome A) : M A := fun log => (o, log).

Definition newline : string := String (ascii_of_N 10) EmptyString.

Section WithEnvironment.

(** The backend behind [commit]. *)
Variable B : Backend.

(** What [hasGitButlerExecutable()] (of [command.ts]) answers. *)
Variable hasGitButlerExecutable : bool.

(** [zodToJsonSchema(CommitParamsSchema)] and [CommitParamsSchema.parse],
    both of the zod library. *)
Variable commitInputSchema : JsonValue.
Variable parseCommitParams : gmap string JsValue -> Outcome CommitParams.

Definition TOOL_LISTINGS : list ToolListing :=
  [ {| tool_name := "commit";
       tool_description := "Commit a set of changes to a specific branch in the GitButler project.";
       inputSchema := commitInputSchema |} ].

Definition isToolName (name : string) : bool :=
  existsb (fun tool => String.eqb (tool_name tool) name) TOOL_LISTINGS.

Definition getCommitToolListing : list ToolListing :=
  if negb hasGitButlerExecutable then [] else TOOL_LISTINGS.

(** The handler is [async]; this is the value its promise settles with.
    Every value thrown here is an [Error], which the first branch of the
    [catch] turns into a result; past the [switch], whose one case is
    ['commit'], the function returns nothing. *)
Definition getCommitToolRequestHandler (toolName : string)
    (params : gmap string JsValue) : M (option CallToolResult) :=
  if negb (isToolName toolName) || negb hasGitButlerExecutable then ret None
  else if String.eqb toolName "commit" then
    tryCatch
      (let! parsedParams := liftOutcome (parseCommitParams params) in
       let! _ := commit B parsedParams in
       ret (Some {| content := [ {| type := "text"; text := "Commit successful" |} ];
                    isError := None |}))
      (fun error =>
         ret (Some {| content := [ {| type := "text";
                                      text := "Error: " +:+ Js.message error |} ];
                      isError := Some true |}))
  else ret None.

(** ** The prompt *)

Definition PROMPTS : list Prompt :=
  [ {| prompt_name := "commit";
       prompt_description := "Commit the file changes into the right stack and branch.
This will create and propose a commit plan for the changes in the project.
If there's any ambiguity, will ask the user for clarification.";
       arguments :=
         [ {| argument_name := "disambiguation";
              argument_description := "Any kind of additional information that can help to disambiguate what and how the commits should be done.";
              required := false |} ] |} ].

(** [typeof params.disambiguation] is ['string'] or ['undefined']. *)
Definition isCommitPromptParams (params : gmap string JsValue) : bool :=
  match prop params "disambiguation" with
  | JsString _ | JsUndefined => true
  | JsOther => false
  end.

(** The text of the prompt before [${suffix}]. *)
Definition commitInstructions : string :=
  "I want to commit the changes in my project using GitButler.
Follow these instructions to do so:
1. List and take a look at the file changes in the project.
2. Determine to which branch (or branches) to commit what. For that, you can list the stacks and branches in the project and take a look at their names.
3. Create a commit plan for the changes. By commit plan, I mean a list of commits that will be created based off the changes listed above.
4. Propose the commit plan to me, including the target branch (or branches), commit messages and the files that will be included in each commit.
5. If there's any ambiguity, ask me for clarification.
6. If I accept, commit as planned.".

Definition buildCommitPrompt (params : gmap string JsValue) : GetPromptResult :=
  let disambiguation : option string :=
    if isCommitPromptParams params then
      match prop params "disambiguation" with
      | JsString s => Some s
      | _ => None
      end
    else None in
  let suffix :=
    match disambiguation with
    | Some s => if String.eqb s "" then "" else newline +:+ "Importantly: " +:+ s
    | None => ""
    end in
  {| messages :=
       [ {| role := "user";
            prompt_content := {| type := "text"; text := commitInstructions +:+ suffix |} |} ] |}.

Definition isPromptName (name : string) : bool :=
  existsb (fun prompt => String.eqb (prompt_name prompt) name) PROMPTS.

Definition getCommitToolPrompts : list Prompt :=
  if negb hasGitButlerExecutable then [] else PROMPTS.

(** The value the promise of the [async] handler settles with. *)
Definition getCommitToolPromptRequestHandler (promptName : string)
    (params : gmap string JsValue) : option GetPromptResult :=
  if negb (isPromptName promptName) || negb hasGitButlerExecutable then None
  else if String.eqb promptName "commit" then Some (buildCommitPrompt params)
  else None.

End WithEnvironment.

(** The two results of the tool handler. *)
Definition commitSuccessful : CallToolResult :=
  {| content := [ {| type := "text"; text := "Commit successful" |} ]; isError := None |}.

Definition errorResult (error : Error) : CallToolResult :=
  {| content := [ {| type := "text"; text := "Error: " +:+ Js.message error |} ];
     isError := Some true |}.

(** The disambiguation a prompt request carries: the string under the key
    [disambiguation], and the empty string when there is none. *)
Definition disambiguationText (params : gmap string JsValue) : string :=
  match prop params "disambiguation" with
  | JsString s => s
  | _ => ""
  end.

(** [all] replaced in the parameters. *)
Definition withAll (all_ : bool) (params : CommitParams) : CommitParams :=
  {| project_directory := project_directory params; message := message params;
     all := all_; filePaths := filePaths params; branch := branch params |}.

End McpTool.


(* ===================================================================== *)
(** * Reading back what [JSON.stringify] escaped *)
(* ===================================================================== *)

Module JsonDecode.

Import Js.

(** The value of a hexadecimal digit of an escape. *)
Definition hexValue (c : ascii) : option N :=
  let n := N_of_ascii c in
  if ((48 <=? n) && (n <=? 57))%N then Some (n - 48)%N
  else if ((97 <=? n) && (n <=? 102))%N then Some (n - 87)%N
  else None.

(** The character that the front of an escaped text stands for, with the
    rest of the text; nothing at the closing quote or at a malformed
    escape.  It undoes [quoteChar]. *)
Definition decodeChar (s : string) : option (ascii * string) :=
  match s with
  | EmptyString => None
  | String c rest =>
      if (N_of_ascii c =? 34)%N then None
      else if (N_of_ascii c =? 92)%N then
        match rest with
        | EmptyString => None
        | String e rest' =>
            let n := N_of_ascii e in
            if (n =? 98)%N then Some (ascii_of_N 8, rest')
            else if (n =? 116)%N then Some (ascii_of_N 9, rest')
            else if (n =? 110)%N then Some (ascii_of_N 10, rest')
            else if (n =? 102)%N then Some (ascii_of_N 12, rest')
            else if (n =? 114)%N then Some (ascii_of_N 13, rest')
            else if (n =? 34)%N then Some (ascii_of_N 34, rest')
            else if (n =? 92)%N then Some (ascii_of_N 92, rest')
            else if (n =? 117)%N then
              match rest' with
              | String z1 (String z2 (String h1 (String h0 rest''))) =>
                  if ((N_of_ascii z1 =? 48) && (N_of_ascii z2 =? 48))%N then
                    match hexValue h1, hexValue h0 with
                    | Some a, Some b => Some (ascii_of_N (16 * a + b), rest'')
                    | _, _ => None
                    end
                  else None
              | _ => None
              end
            else None
        end
      else Some (c, rest)
  end.

(** The JSON text of the [DiffSpec] [commit] builds for a path. *)
Definition wholeFileJson (filePath : string) : string :=
  stringify (Mcp.diffSpecToJson {| Mcp.pathBytes := filePath; Mcp.hunkHeaders := [] |}).

(** The elements of the array of such texts, joined, up to the closing
    bracket. *)
Definition joinedFiles (paths : list string) : string :=
  String.concat "," (map wholeFileJson paths) +:+ "]".

End JsonDecode.

(* ===================================================================== *)
(** * Properties of the [commit] tool *)
(* ===================================================================== *)

Module McpProofs.

Import Js Mcp.

(** ** Strings *)

Lemma prefix_append (s t : string) : String.prefix s (s +:+ t) = true.
Proof.
  induction s as [|c s IH]; simpl.
  - by destruct t.
  - destruct (ascii_dec c c) as [_|Hne]; [exact IH | by destruct Hne].
Qed.

Lemma includes_here (s t : string) : includes (s +:+ t) s = true.
Proof.
  destruct (s +:+ t) as [|c rest] eqn:E; cbn [includes].
  - destruct s; [done | discriminate].
  - rewrite <- E, prefix_append. done.
Qed.

Lemma includes_append (pre s post : string) :
  includes (pre +:+ s +:+ post) s = true.
Proof.
  induction pre as [|c pre IH].
  - exact (includes_here s post).
  - simpl. rewrite IH. apply orb_true_r.
Qed.

Lemma append_assoc (s t u : string) : (s +:+ t) +:+ u = s +:+ t +:+ u.
Proof.
  induction s as [|c s IH]; [done|].
  change (String c ((s +:+ t) +:+ u) = String c (s +:+ t +:+ u)). by rewrite IH.
Qed.

Lemma append_inj_l (s t u : string) : s +:+ t = s +:+ u -> t = u.
Proof. induction s as [|c s IH]; simpl; [done | intros [= H]; auto]. Qed.

(** ** The log only grows, and the calls are made in order *)

Section WithBackend.

Variable B : Backend.

Lemma commit_accepted params stacks log :
  accepted params ->
  backend_listStacks B (project_directory params) = Return stacks ->
  commit B params log =
    if length stacks =? 0
    then (Throw noStacksError, log ++ [CallListStacks (project_directory params)])
    else commitToStacks B params (commitArgs params) stacks
           (log ++ [CallListStacks (project_directory params)]).
Proof.
  intros Hok Hls. unfold commit, bind, listStacks, commitArgs.
  destruct (all params) eqn:Ea, (filePaths params) as [|p ps] eqn:Ef;
    try (exfalso; apply Hok; by rewrite ?Ef);
    cbn [length Nat.ltb Nat.leb throw ret]; rewrite Hls;
    by destruct (length stacks =? 0).
Qed.

Lemma commitToStacks_skip params args stack rest :
  hasHead (branch params) stack = false ->
  commitToStacks B params args (stack :: rest) = commitToStacks B params args rest.
Proof. intros H. simpl. unfold hasHead in H. by rewrite H. Qed.

Lemma commitToStacks_first params args stacks stack :
  firstStackWith (branch params) stacks = Some stack ->
  commitToStacks B params args stacks = commitToStacks B params args [stack]
  /\ hasHead (branch params) stack = true.
Proof.
  unfold firstStackWith. induction stacks as [|s rest IH]; [done|].
  simpl find. destruct (hasHead (branch params) s) eqn:Hs.
  - intros [= <-]. split; [|done]. simpl. unfold hasHead in Hs. by rewrite Hs.
  - intros H. rewrite commitToStacks_skip by done. auto.
Qed.

Lemma commitToStacks_none params args stacks log :
  firstStackWith (branch params) stacks = None ->
  commitToStacks B params args stacks log = (Throw (notInAnyStackError params), log).
Proof.
  unfold firstStackWith. induction stacks as [|s rest IH]; [done|].
  simpl find. destruct (hasHead (branch params) s) eqn:Hs; [done|].
  intros H. rewrite commitToStacks_skip by done. auto.
Qed.

Lemma commitToStacks_single_head params args stack log :
  hasHead (branch params) stack = true ->
  length (heads stack) = 1 ->
  commitToStacks B params args [stack] log =
    (backend_execute B (project_directory params) (args ++ ["-s"; branch params]),
     log ++ [CallExecute (project_directory params) (args ++ ["-s"; branch params])]).
Proof.
  intros Hh Hl. unfold hasHead in Hh. simpl. by rewrite Hh, length_map, Hl.
Qed.

Lemma commitToStacks_multi_head params args stack log :
  hasHead (branch params) stack = true ->
  length (heads stack) <> 1 ->
  commitToStacks B params args [stack] log =
    let log' := log ++ [CallListStackBranches (project_directory params) (stack_id stack)] in
    match backend_listStackBranches B (project_directory params) (stack_id stack) with
    | Throw e => (Throw e, log')
    | Return [] => (Throw (noBranchesError stack), log')
    | Return stackBranches =>
        match find (isNamed (branch params)) stackBranches with
        | None =>
            (Throw (mkError ("Branch " +:+ branch params +:+ " not found in stack "
                             +:+ stack_id stack)), log')
        | Some branch_ =>
            if archived branch_ then (Throw (archivedError params), log')
            else (backend_execute B (project_directory params) (args ++ ["-s"; branch params]),
                  log' ++ [CallExecute (project_directory params)
                             (args ++ ["-s"; branch params])])
        end
    end.
Proof.
  intros Hh Hl. unfold hasHead in Hh. simpl. rewrite Hh, length_map.
  destruct (Nat.eqb_spec (length (heads stack)) 1) as [|_]; [done|].
  unfold bind, listStackBranches.
  destruct (backend_listStackBranches _ _ _) as [[|b bs]|e]; try done.
  cbn [length Nat.eqb]. fold (isNamed (branch params)).
  destruct (find _ _) as [branch_|]; [|done]. by destruct (archived branch_).
Qed.

End WithBackend.

Lemma hasHead_spec branchName stack :
  hasHead branchName stack = true <-> branchName ∈ map head_name (heads stack).
Proof.
  unfold hasHead. rewrite existsb_exists, list_elem_of_In. split.
  - intros (x & Hin & Heq). apply String.eqb_eq in Heq. by subst.
  - intros Hin. exists branchName. split; [done | apply String.eqb_refl].
Qed.

Lemma firstStackWith_none branchName stacks :
  Forall (fun stack => branchName ∉ map head_name (heads stack)) stacks ->
  firstStackWith branchName stacks = None.
Proof.
  unfold firstStackWith. induction 1 as [|s rest Hs _ IH]; [done|].
  simpl. destruct (hasHead branchName s) eqn:E; [|done].
  apply hasHead_spec in E. done.
Qed.

Lemma heads_of_match branchName stack :
  hasHead branchName stack = true -> length (heads stack) <> 1 ->
  1 < length (heads stack).
Proof.
  intros H Hl. apply hasHead_spec in H.
  destruct (heads stack) as [|h [|h' hs]]; simpl in *; [|done|lia].
  by apply elem_of_nil in H.
Qed.

(** The run of [commit], down to the stack the loop stops at. *)
Lemma commit_closed_form (B : Backend) (params : CommitParams) :
  run (commit B params) =
    let dir := project_directory params in
    if all params && (0 <? length (filePaths params)) then
      (Throw allAndFilePathsError, [])
    else
      match backend_listStacks B dir with
      | Throw e => (Throw e, [CallListStacks dir])
      | Return [] => (Throw noStacksError, [CallListStacks dir])
      | Return stacks =>
          match firstStackWith (branch params) stacks with
          | None => (Throw (notInAnyStackError params), [CallListStacks dir])
          | Some stack =>
              commitToStacks B params (commitArgs params) [stack] [CallListStacks dir]
          end
      end.
Proof.
  cbn zeta. destruct (all params && (0 <? length (filePaths params))) eqn:Ev.
  - apply andb_true_iff in Ev as [Ha Hf]. unfold run, commit, bind. rewrite Ha.
    by destruct (filePaths params).
  - destruct (backend_listStacks B (project_directory params)) as [stacks|e] eqn:Hls.
    + assert (accepted params) as Hok.
      { intros [Ha Hf]. rewrite Ha in Ev. by destruct (filePaths params). }
      unfold run. rewrite (commit_accepted B params stacks) by done.
      destruct stacks as [|s rest]; [done|]. cbn [length Nat.eqb app].
      destruct (firstStackWith _ _) as [stack|] eqn:Hf.
      * by destruct (commitToStacks_first B params (commitArgs params) _ _ Hf) as [-> _].
      * by apply commitToStacks_none.
    + unfold run, commit, bind, listStacks. rewrite Hls.
      destruct (all params); [|done]. by destruct (0 <? length (filePaths params)).
Qed.

Lemma commit_at_first_stack (B : Backend) params stacks stack :
  accepted params ->
  backend_listStacks B (project_directory params) = Return stacks ->
  firstStackWith (branch params) stacks = Some stack ->
  run (commit B params) =
    commitToStacks B params (commitArgs params) [stack]
      [CallListStacks (project_directory params)]
  /\ hasHead (branch params) stack = true.
Proof.
  intros Hok Hls Hf. unfold run. rewrite (commit_accepted B params stacks) by done.
  destruct stacks as [|s rest]; [done|]. cbn [length Nat.eqb app].
  by destruct (commitToStacks_first B params (commitArgs params) _ _ Hf) as [-> ?].
Qed.

(** Either [commit] throws without having dispatched, or its outcome is
    that of the one dispatch it ends with. *)
Lemma commit_run_shape (B : Backend) (params : CommitParams) :
  let dir := project_directory params in
  (exists e log,
      run (commit B params) = (Throw e, log)
      /\ forall d a, CallExecute d a ∉ log)
  \/ (exists log,
      run (commit B params) =
        (backend_execute B dir (dispatchArgs params),
         log ++ [CallExecute dir (dispatchArgs params)])
      /\ forall d a, CallExecute d a ∉ log).
Proof.
  cbn zeta. rewrite commit_closed_form. cbn zeta.
  assert (forall d a, CallExecute d a ∉ [CallListStacks (project_directory params)])
    as Hone by (intros d a [= ]%list_elem_of_singleton).
  destruct (all params && _).
  { left. eexists _, _. split; [done|]. intros d a H. by apply elem_of_nil in H. }
  destruct (backend_listStacks B _) as [[|s rest]|e].
  - left. by eexists _, _.
  - destruct (firstStackWith _ _) as [stack|] eqn:Hf; [|left; by eexists _, _].
    apply find_some in Hf as [_ Hh].
    destruct (decide (length (heads stack) = 1)) as [Hl|Hl].
    + right. rewrite commitToStacks_single_head by done. by eexists.
    + rewrite commitToStacks_multi_head by done. cbn zeta.
      assert (forall d a, CallExecute d a ∉
                [CallListStacks (project_directory params)] ++
                [CallListStackBranches (project_directory params) (stack_id stack)])
        as Htwo.
      { intros d a H. apply elem_of_app in H as [H|H];
          by apply list_elem_of_singleton in H. }
      destruct (backend_listStackBranches B _ _) as [[|b bs]|e];
        try (left; by eexists _, _).
      destruct (find _ _) as [branch_|]; [|left; by eexists _, _].
      destruct (archived branch_); [left; by eexists _, _|].
      right. by eexists.
  - left. by eexists _, _.
Qed.

Lemma buildDiffSpec_map (paths : list string) :
  buildDiffSpec paths =
    map (fun filePath => {| pathBytes := filePath; hunkHeaders := [] |}) paths.
Proof.
  unfold buildDiffSpec.
  enough (forall acc,
    fold_left (fun diffSpec filePath =>
                 diffSpec ++ [{| pathBytes := filePath; hunkHeaders := [] |}]) paths acc
    = acc ++ map (fun filePath => {| pathBytes := filePath; hunkHeaders := [] |}) paths)
    as H by apply (H []).
  induction paths as [|p ps IH]; intros acc; simpl.
  - by rewrite app_nil_r.
  - by rewrite IH, <- app_assoc.
Qed.

(** ** The claims *)

(** C3, mutual exclusion.  With [all] set and a non-empty [filePaths],
    [commit] throws the error "Cannot use --all and file paths together"
    (the failure the spec files under ValidationError, the tool having the
    one class [Error]) and the log of backend calls stays empty: no stack
    listing, no branch listing and no dispatch is issued. *)
Theorem commit_rejects_all_with_filePaths (B : Backend) (params : CommitParams) :
  all params = true ->
  filePaths params <> [] ->
  run (commit B params) =
    (Throw (mkError "Cannot use --all and file paths together"), []).
Proof.
  intros Ha Hf. unfold run, commit, bind. rewrite Ha.
  destruct (filePaths params); [done|]. reflexivity.
Qed.

(** C2 as amended, no match.  When the stack listing answers a list in
    which no stack has the target among its head names, [commit] makes no
    further backend call, so dispatches nothing, and throws: for a
    non-empty list the error "Branch <name> not found in any stack", whose
    message includes the target name; for the empty list the error "No
    stacks found". *)
Theorem commit_no_match (B : Backend) (params : CommitParams) (stacks : list Stack) :
  accepted params ->
  backend_listStacks B (project_directory params) = Return stacks ->
  Forall (fun stack => branch params ∉ map head_name (heads stack)) stacks ->
  exists e,
    run (commit B params) = (Throw e, [CallListStacks (project_directory params)])
    /\ (stacks = [] -> e = mkError "No stacks found")
    /\ (stacks <> [] ->
        e = mkError ("Branch " +:+ branch params +:+ " not found in any stack")
        /\ includes (Js.message e) (branch params) = true).
Proof.
  intros Hok Hls Hno. unfold run. rewrite (commit_accepted B params stacks) by done.
  destruct stacks as [|s rest].
  - exists noStacksError. by repeat split.
  - cbn [length Nat.eqb]. rewrite commitToStacks_none by by apply firstStackWith_none.
    exists (notInAnyStackError params). repeat split; [done|].
    exact (includes_append "Branch " (branch params) " not found in any stack").
Qed.

(** C4, single-head fast path.  When the first stack whose head names
    include the target has exactly one head, [commit] lists the stacks and
    dispatches the command with [-s <branch>]; it asks for no branch list,
    and its outcome is the outcome of the dispatch whatever the backend
    would answer to a branch listing. *)
Theorem commit_single_head_fast_path
    (B : Backend) (params : CommitParams) (stacks : list Stack) (stack : Stack) :
  accepted params ->
  backend_listStacks B (project_directory params) = Return stacks ->
  firstStackWith (branch params) stacks = Some stack ->
  length (heads stack) = 1 ->
  run (commit B params) =
    (backend_execute B (project_directory params) (dispatchArgs params),
     [CallListStacks (project_directory params);
      CallExecute (project_directory params) (dispatchArgs params)]).
Proof.
  intros Hok Hls Hf Hl.
  destruct (commit_at_first_stack B params stacks stack) as [-> Hh]; try done.
  by rewrite commitToStacks_single_head.
Qed.

(** C5, archived exclusion.  When the first stack whose head names include
    the target has more than one head and the record found under that name
    in the fetched branch list is archived, [commit] throws the error
    "Branch <name> is archived" (the spec's ConflictError) after the two
    listings, without dispatching. *)
Theorem commit_rejects_archived_branch
    (B : Backend) (params : CommitParams) (stacks : list Stack) (stack : Stack)
    (stackBranches : list StackBranch) (branch_ : StackBranch) :
  accepted params ->
  backend_listStacks B (project_directory params) = Return stacks ->
  firstStackWith (branch params) stacks = Some stack ->
  1 < length (heads stack) ->
  backend_listStackBranches B (project_directory params) (stack_id stack)
    = Return stackBranches ->
  find (isNamed (branch params)) stackBranches = Some branch_ ->
  archived branch_ = true ->
  run (commit B params) =
    (Throw (mkError ("Branch " +:+ branch params +:+ " is archived")),
     [CallListStacks (project_directory params);
      CallListStackBranches (project_directory params) (stack_id stack)]).
Proof.
  intros Hok Hls Hf Hl Hlb Hfind Harch.
  destruct (commit_at_first_stack B params stacks stack) as [-> Hh]; try done.
  rewrite commitToStacks_multi_head by (done || lia).
  cbn zeta. rewrite Hlb. destruct stackBranches as [|b bs]; [done|].
  by rewrite Hfind, Harch.
Qed.

(** C8, inconsistent-state guard.  When the first stack whose head names
    include the target has more than one head and its branch list comes
    back empty, [commit] throws the error "No branches found in stack
    <id>" (the spec's NotFoundError) after the two listings, without
    dispatching. *)
Theorem commit_rejects_empty_branch_list
    (B : Backend) (params : CommitParams) (stacks : list Stack) (stack : Stack) :
  accepted params ->
  backend_listStacks B (project_directory params) = Return stacks ->
  firstStackWith (branch params) stacks = Some stack ->
  1 < length (heads stack) ->
  backend_listStackBranches B (project_directory params) (stack_id stack) = Return [] ->
  run (commit B params) =
    (Throw (mkError ("No branches found in stack " +:+ stack_id stack)),
     [CallListStacks (project_directory params);
      CallListStackBranches (project_directory params) (stack_id stack)]).
Proof.
  intros Hok Hls Hf Hl Hlb.
  destruct (commit_at_first_stack B params stacks stack) as [-> Hh]; try done.
  rewrite commitToStacks_multi_head by (done || lia).
  cbn zeta. by rewrite Hlb.
Qed.

(** C9, the fast path skips the archived check.  When the first stack
    whose head names include the target has exactly one head, [commit]
    dispatches even if the backend's record of that branch is archived;
    and, unless the dispatch itself fails with it, the error "Branch
    <name> is archived" comes only out of a run whose first matching stack
    has more than one head. *)
Theorem commit_fast_path_skips_archived_check
    (B : Backend) (params : CommitParams) (stacks : list Stack) :
  accepted params ->
  backend_listStacks B (project_directory params) = Return stacks ->
  (forall stack stackBranches branch_,
      firstStackWith (branch params) stacks = Some stack ->
      length (heads stack) = 1 ->
      backend_listStackBranches B (project_directory params) (stack_id stack)
        = Return stackBranches ->
      find (isNamed (branch params)) stackBranches = Some branch_ ->
      archived branch_ = true ->
      run (commit B params) =
        (backend_execute B (project_directory params) (dispatchArgs params),
         [CallListStacks (project_directory params);
          CallExecute (project_directory params) (dispatchArgs params)]))
  /\ ((forall args, backend_execute B (project_directory params) args
                    <> Throw (archivedError params)) ->
      forall log,
        run (commit B params) = (Throw (archivedError params), log) ->
        exists stack,
          firstStackWith (branch params) stacks = Some stack
          /\ 1 < length (heads stack)).
Proof.
  intros Hok Hls. split.
  - intros stack stackBranches branch_ Hf Hl _ _ _.
    destruct (commit_at_first_stack B params stacks stack) as [-> Hh]; try done.
    by rewrite commitToStacks_single_head.
  - intros Hexec log Hrun.
    destruct (firstStackWith (branch params) stacks) as [stack|] eqn:Hf.
    + exists stack. split; [done|].
      destruct (commit_at_first_stack B params stacks stack) as [Heq Hh]; try done.
      apply heads_of_match with (branchName := branch params); [done|].
      intros Hl. rewrite Heq, commitToStacks_single_head in Hrun by done.
      injection Hrun as Hrun _. by apply Hexec in Hrun.
    + exfalso. unfold run in Hrun.
      rewrite (commit_accepted B params stacks) in Hrun by done.
      destruct stacks as [|s rest]; [discriminate Hrun|].
      cbn [length Nat.eqb] in Hrun. rewrite commitToStacks_none in Hrun by done.
      injection Hrun as Hrun _.
      do 2 apply append_inj_l in Hrun. discriminate Hrun.
Qed.


(** ** The claims at concrete inputs *)

Import Examples.

(** The scenario of the spec's section 8 for the target [feature-2]: the
    branch list of stack B is fetched and the commit dispatched. *)
Example commit_to_feature_2 :
  run (commit (backend [stackA; stackB] (Return branchesOfB))
              (params "feature-2" false []))
  = (Return "",
     [CallListStacks "/repo"; CallListStackBranches "/repo" "B";
      CallExecute "/repo" ["commit"; "--message"; "Fix the parser"; "-s"; "feature-2"]]).
Proof. reflexivity. Qed.

Lemma commit_rejects_all_with_filePaths_witness :
  run (commit (backend [stackA; stackB] (Return branchesOfB))
              (params "main" true ["src/a.ts"]))
  = (Throw (mkError "Cannot use --all and file paths together"), []).
Proof.
  apply commit_rejects_all_with_filePaths; [reflexivity | discriminate].
Defined.

(** C2 as the claim states it fails on the empty stack list: the error is
    "No stacks found", which does not name the branch. *)
Lemma commit_no_match_empty_list_counterexample :
  let B := backend [] (Return []) in
  let p := params "main" false [] in
  backend_listStacks B (project_directory p) = Return []
  /\ Forall (fun stack => branch p ∉ map head_name (heads stack)) []
  /\ ~ (exists e log,
          run (commit B p) = (Throw e, log)
          /\ includes (Js.message e) (branch p) = true).
Proof.
  cbn zeta. split; [reflexivity|]. split; [constructor|].
  intros (e & log & Hrun & Hinc). vm_compute in Hrun.
  injection Hrun as <- _. vm_compute in Hinc. discriminate Hinc.
Qed.

Lemma commit_no_match_witness :
  exists e,
    run (commit (backend [stackA; stackB] (Return branchesOfB))
                (params "feature-3" false []))
    = (Throw e, [CallListStacks "/repo"])
    /\ includes (Js.message e) "feature-3" = true.
Proof.
  destruct (commit_no_match (backend [stackA; stackB] (Return branchesOfB))
              (params "feature-3" false []) [stackA; stackB])
    as (e & Hrun & _ & Hmsg).
  - intros [H _]. discriminate H.
  - reflexivity.
  - apply (bool_decide_unpack _). vm_compute. exact I.
  - exists e. split; [exact Hrun|]. by apply Hmsg.
Defined.

(** The fast path, with a backend whose branch listing fails. *)
Lemma commit_single_head_fast_path_witness :
  run (commit (backend [stackA; stackB] (Throw (mkError "stack_branches failed")))
              (params "main" false []))
  = (Return "",
     [CallListStacks "/repo";
      CallExecute "/repo" ["commit"; "--message"; "Fix the parser"; "-s"; "main"]]).
Proof.
  apply (commit_single_head_fast_path
           (backend [stackA; stackB] (Throw (mkError "stack_branches failed")))
           (params "main" false []) [stackA; stackB] stackA).
  - intros [H _]. discriminate H.
  - reflexivity.
  - reflexivity.
  - reflexivity.
Defined.

Lemma commit_rejects_archived_branch_witness :
  run (commit (backend [stackA; stackB] (Return branchesOfB))
              (params "feature-1" false []))
  = (Throw (mkError "Branch feature-1 is archived"),
     [CallListStacks "/repo"; CallListStackBranches "/repo" "B"]).
Proof.
  apply (commit_rejects_archived_branch
           (backend [stackA; stackB] (Return branchesOfB))
           (params "feature-1" false []) [stackA; stackB] stackB branchesOfB
           {| name := "feature-1"; archived := true |}).
  - intros [H _]. discriminate H.
  - reflexivity.
  - reflexivity.
  - simpl. lia.
  - reflexivity.
  - reflexivity.
  - reflexivity.
Defined.

Lemma commit_rejects_empty_branch_list_witness :
  run (commit (backend [stackA; stackB] (Return []))
              (params "feature-2" false []))
  = (Throw (mkError "No branches found in stack B"),
     [CallListStacks "/repo"; CallListStackBranches "/repo" "B"]).
Proof.
  apply (commit_rejects_empty_branch_list
           (backend [stackA; stackB] (Return []))
           (params "feature-2" false []) [stackA; stackB] stackB).
  - intros [H _]. discriminate H.
  - reflexivity.
  - reflexivity.
  - simpl. lia.
  - reflexivity.
Defined.

(** The sole head [main] of stack A, archived in the backend's records. *)
Lemma commit_fast_path_skips_archived_check_witness :
  run (commit (backend [stackA; stackB] (Return [ {| name := "main"; archived := true |} ]))
              (params "main" false []))
  = (Return "",
     [CallListStacks "/repo";
      CallExecute "/repo" ["commit"; "--message"; "Fix the parser"; "-s"; "main"]]).
Proof.
  destruct (commit_fast_path_skips_archived_check
              (backend [stackA; stackB] (Return [ {| name := "main"; archived := true |} ]))
              (params "main" false []) [stackA; stackB]) as [Hfast _].
  - intros [H _]. discriminate H.
  - reflexivity.
  - apply (Hfast stackA [ {| name := "main"; archived := true |} ]
             {| name := "main"; archived := true |}); reflexivity.
Defined.


End McpProofs.

(* ===================================================================== *)
(** * Properties of the [StackService] *)
(* ===================================================================== *)

Module StackServiceProofs.

Import StackService StackExamples.

(** ** Tags *)

Lemma overlaps_spec (ts invalidated : list ReduxTag) :
  overlaps ts invalidated = true <-> exists t, t ∈ ts /\ t ∈ invalidated.
Proof.
  unfold overlaps. rewrite existsb_exists. split.
  - intros (t & Hin & Hd). exists t. split; [by apply list_elem_of_In|].
    by apply bool_decide_eq_true in Hd.
  - intros (t & Hin & Hd). exists t. split; [by apply list_elem_of_In|].
    by apply bool_decide_eq_true.
Qed.

Lemma overlaps_createCommit (ts : list ReduxTag) :
  overlaps ts (invalidatesTags createCommit) = true
  <-> StackBranches ∈ ts \/ Commit ∈ ts.
Proof.
  rewrite overlaps_spec. cbn [invalidatesTags]. split.
  - intros (t & Hin & Ht). apply elem_of_cons in Ht as [->|Ht]; [by left|].
    apply list_elem_of_singleton in Ht as ->. by right.
  - intros [Hin|Hin]; eexists; (split; [exact Hin|]).
    + apply list_elem_of_here.
    + apply list_elem_of_further, list_elem_of_here.
Qed.

(** A tag is not in the singleton of another tag. *)
Ltac other_tag H :=
  destruct H as [H|H]; apply list_elem_of_singleton in H; discriminate H.

(** C1 as amended, invalidation precision.  After a successful dispatch of
    [createCommit], a Fresh cache entry is Stale exactly when its tags
    include [StackBranches] or [Commit], and Fresh otherwise, with its tags
    unchanged: the entries of [getStackBranches] go stale, those of
    [getStacks] (tagged [Stacks] alone) and of [getCommitChanges] (tagged
    [CommitChanges] alone) stay fresh. *)
Theorem createCommit_invalidation
    (cache : Cache) (key : string * string) (e : CacheEntry) :
  cache !! key = Some e ->
  status e = Fresh ->
  exists e',
    dispatchMutation createCommit true cache !! key = Some e'
    /\ tags e' = tags e
    /\ (status e' = Stale <-> StackBranches ∈ tags e \/ Commit ∈ tags e)
    /\ (status e' = Fresh <-> (StackBranches ∉ tags e) /\ (Commit ∉ tags e))
    /\ (tags e = providesTags getStackBranches -> status e' = Stale)
    /\ (tags e = providesTags getStacks -> status e' = Fresh)
    /\ (tags e = providesTags getCommitChanges -> status e' = Fresh).
Proof.
  intros Hk Hfresh. unfold dispatchMutation. rewrite lookup_fmap, Hk.
  cbn [fmap option_fmap option_map].
  eexists. split; [reflexivity|]. unfold invalidateEntry. rewrite Hfresh.
  destruct (overlaps (tags e) (invalidatesTags createCommit)) eqn:Ho.
  - apply overlaps_createCommit in Ho. cbn [tags status].
    split; [done|]. split; [tauto|]. split; [split; [done|tauto]|].
    split; [done|].
    split; intros Ht; rewrite Ht in Ho; cbn [providesTags] in Ho; other_tag Ho.
  - assert (~ (StackBranches ∈ tags e \/ Commit ∈ tags e)) as Hno.
    { rewrite <- overlaps_createCommit. by rewrite Ho. }
    rewrite Hfresh.
    split; [done|]. split; [split; [done|tauto]|]. split; [tauto|].
    split; [|done]. intros Ht. destruct Hno. left. rewrite Ht.
    apply list_elem_of_here.
Qed.

(** C1 as the claim states it fails on the entries tagged [CommitChanges]:
    the entry of a [getCommitChanges] query stays Fresh. *)
Lemma createCommit_keeps_commit_changes_fresh :
  let entry := queryEntry getCommitChanges Fresh in
  commitChangesCache !! commitChangesKey = Some entry
  /\ CommitChanges ∈ tags entry
  /\ status entry = Fresh
  /\ ~ (exists e',
          dispatchMutation createCommit true commitChangesCache !! commitChangesKey
            = Some e'
          /\ status e' = Stale).
Proof.
  cbn zeta. unfold commitChangesCache.
  split; [apply lookup_singleton_eq|]. split; [apply list_elem_of_here|].
  split; [done|].
  intros (e' & Hk & Hs). unfold dispatchMutation in Hk.
  rewrite lookup_fmap, lookup_singleton_eq in Hk. injection Hk as <-.
  discriminate Hs.
Qed.

Lemma createCommit_invalidation_witness :
  exists e',
    dispatchMutation createCommit true
      {[ ("stack_branches", "project-1/stack-1") := queryEntry getStackBranches Fresh ]}
      !! ("stack_branches", "project-1/stack-1") = Some e'
    /\ status e' = Stale.
Proof.
  destruct (createCommit_invalidation
              {[ ("stack_branches", "project-1/stack-1") := queryEntry getStackBranches Fresh ]}
              ("stack_branches", "project-1/stack-1")
              (queryEntry getStackBranches Fresh))
    as (e' & Hk & _ & _ & _ & Hst & _).
  - apply lookup_singleton_eq.
  - reflexivity.
  - exists e'. split; [exact Hk|]. by apply Hst.
Defined.

(** ** [Array.prototype.sort] *)

Section Sort.

Context {A : Type} (compareFn : A -> A -> Z).

Lemma sortInsert_Permutation (x : A) (l : list A) :
  Js.sortInsert compareFn x l ≡ₚ x :: l.
Proof.
  induction l as [|y l IH]; [done|]. cbn [Js.sortInsert].
  destruct (compareFn x y <=? 0)%Z; [done|]. by rewrite IH, Permutation_swap.
Qed.

Lemma sort_Permutation (l : list A) : Js.sort compareFn l ≡ₚ l.
Proof.
  induction l as [|x l IH]; [done|]. cbn [Js.sort].
  by rewrite sortInsert_Permutation, IH.
Qed.

(** Elements that compare as equal among themselves keep their order. *)
Lemma sortInsert_filter (P : A -> Prop) `{forall x, Decision (P x)} (x : A) (l : list A) :
  (forall y, P x -> P y -> (compareFn x y <= 0)%Z) ->
  filter P (Js.sortInsert compareFn x l) = filter P (x :: l).
Proof.
  intros Htie. induction l as [|y l IH]; [done|]. cbn [Js.sortInsert].
  destruct (Z.leb_spec (compareFn x y) 0) as [|Hgt]; [done|].
  rewrite filter_cons, IH, !filter_cons.
  destruct (decide (P y)) as [Hy|]; [|done].
  destruct (decide (P x)) as [Hx|]; [|done].
  specialize (Htie y Hx Hy). lia.
Qed.

Lemma sort_stable (P : A -> Prop) `{forall x, Decision (P x)} (l : list A) :
  (forall x y, P x -> P y -> (compareFn x y <= 0)%Z) ->
  filter P (Js.sort compareFn l) = filter P l.
Proof.
  intros Htie. induction l as [|x l IH]; [done|]. cbn [Js.sort].
  rewrite sortInsert_filter by (intros y; apply Htie).
  by rewrite !filter_cons, IH.
Qed.

Hypothesis compareFn_total :
  forall a b, (compareFn a b <= 0 \/ compareFn b a <= 0)%Z.
Hypothesis compareFn_trans :
  forall a b c, (compareFn a b <= 0 -> compareFn b c <= 0 -> compareFn a c <= 0)%Z.

Lemma sortInsert_sorted (x : A) (l : list A) :
  StronglySorted (fun a b => (compareFn a b <= 0)%Z) l ->
  StronglySorted (fun a b => (compareFn a b <= 0)%Z) (Js.sortInsert compareFn x l).
Proof.
  induction 1 as [|y l Hl IH Hy]; cbn [Js.sortInsert].
  - by repeat constructor.
  - destruct (Z.leb_spec (compareFn x y) 0) as [Hle|Hgt].
    + constructor; [by constructor|]. constructor; [done|].
      eapply Forall_impl; [exact Hy|]. intros z Hz. by apply (compareFn_trans x y z).
    + constructor; [done|]. rewrite sortInsert_Permutation. constructor; [|done].
      destruct (compareFn_total x y); [lia|done].
Qed.

Lemma sort_sorted (l : list A) :
  StronglySorted (fun a b => (compareFn a b <= 0)%Z) (Js.sort compareFn l).
Proof.
  induction l as [|x l IH]; [constructor|]. cbn [Js.sort]. by apply sortInsert_sorted.
Qed.

End Sort.

Lemma StronglySorted_impl {A} (R1 R2 : relation A) (l : list A) :
  (forall x y, R1 x y -> R2 x y) -> StronglySorted R1 l -> StronglySorted R2 l.
Proof.
  intros HR. induction 1 as [|x l Hl IH Hx]; constructor; [done|].
  eapply Forall_impl; [exact Hx|]. auto.
Qed.

Lemma StronglySorted_fmap_inv {A B} (f : A -> B) (R : relation B) (l : list A) :
  StronglySorted R (f <$> l) -> StronglySorted (fun x y => R (f x) (f y)) l.
Proof.
  induction l as [|x l IH]; [constructor|]. rewrite fmap_cons.
  intros H. inversion H as [|? ? Hl Hx]; subst. constructor; [by apply IH|].
  apply Forall_forall. intros y Hy. rewrite Forall_forall in Hx.
  apply Hx. by apply list_elem_of_fmap_2.
Qed.

(** ** The stored branches *)

Lemma filter_all {A} (P : A -> Prop) `{forall x, Decision (P x)} (l : list A) :
  (forall x, P x) -> filter P l = l.
Proof.
  intros HP. induction l as [|x l IH]; [done|].
  by rewrite filter_cons_True, IH.
Qed.

Lemma fold_left_insert (models : list WorkspaceBranch) (st : gmap string WorkspaceBranch) :
  fold_left (fun acc e => <[selectId e := e]> acc) models st
  = foldr (fun e acc => <[selectId e := e]> acc) st (reverse models).
Proof.
  revert st. induction models as [|e models IH]; intros st; [done|].
  cbn [fold_left]. by rewrite IH, reverse_cons, foldr_app.
Qed.

Lemma foldr_insert_list_to_map (models : list WorkspaceBranch) :
  foldr (fun e acc => <[selectId e := e]> acc) (∅ : gmap string WorkspaceBranch) models
  = list_to_map (keyed <$> models).
Proof. induction models as [|e models IH]; [done|]. cbn. by rewrite IH. Qed.

(** The state the endpoint caches: the names of the fetched branches in
    sorted order, and the branches under their names. *)
Lemma transformResponse_state localeCompare (response : list WorkspaceBranch) :
  transformResponse localeCompare response
  = {| ids := selectId <$> Js.sort (sortComparer localeCompare) response;
       entities := list_to_map (keyed <$> reverse response) |}.
Proof.
  unfold transformResponse, addMany, getInitialState. cbn [ids entities selectAll omap].
  rewrite filter_all by (intros e; apply not_elem_of_nil).
  destruct response as [|b response]; [done|].
  by rewrite fold_left_insert, foldr_insert_list_to_map.
Qed.

Lemma keyed_fst (models : list WorkspaceBranch) :
  (keyed <$> models).*1 = name <$> models.
Proof. by rewrite <- list_fmap_compose. Qed.

Lemma stored_lookup (response : list WorkspaceBranch) k b :
  (list_to_map (keyed <$> reverse response) : gmap string WorkspaceBranch) !! k = Some b ->
  name b = k /\ b ∈ response.
Proof.
  intros H%elem_of_list_to_map_2.
  apply list_elem_of_fmap in H as (e & Heq & He).
  unfold keyed in Heq. injection Heq as -> ->.
  split; [done|]. by apply elem_of_reverse.
Qed.

Lemma stored_is_Some (response : list WorkspaceBranch) b :
  b ∈ response ->
  is_Some ((list_to_map (keyed <$> reverse response) : gmap string WorkspaceBranch)
             !! name b).
Proof.
  intros Hb. destruct (list_to_map _ !! name b) eqn:E; [by eexists|].
  apply not_elem_of_list_to_map_2 in E. destruct E.
  rewrite keyed_fst. apply list_elem_of_fmap_2. by apply elem_of_reverse.
Qed.

Lemma stored_NoDup (response : list WorkspaceBranch) b :
  NoDup (name <$> response) ->
  b ∈ response ->
  (list_to_map (keyed <$> reverse response) : gmap string WorkspaceBranch) !! name b
  = Some b.
Proof.
  intros Hnd Hb. apply elem_of_list_to_map_1.
  - by rewrite keyed_fst, reverse_Permutation.
  - apply (list_elem_of_fmap_2 keyed). by apply elem_of_reverse.
Qed.

(** The view has the names of the sorted fetched array, and with names
    that differ it is that array. *)
Lemma view_names (m : gmap string WorkspaceBranch) (l : list WorkspaceBranch) :
  (forall b, b ∈ l -> exists b', m !! name b = Some b' /\ name b' = name b) ->
  name <$> omap (fun id => m !! id) (selectId <$> l) = name <$> l.
Proof.
  induction l as [|b l IH]; intros Hm; [done|]. csimpl. unfold selectId at 1.
  destruct (Hm b) as (b' & -> & Hn); [by left|]. csimpl.
  rewrite Hn, IH; [done|]. intros ??. apply Hm. by right.
Qed.

Lemma view_records (m : gmap string WorkspaceBranch) (l : list WorkspaceBranch) :
  (forall b, b ∈ l -> m !! name b = Some b) ->
  omap (fun id => m !! id) (selectId <$> l) = l.
Proof.
  induction l as [|b l IH]; intros Hm; [done|]. csimpl. unfold selectId at 1.
  rewrite (Hm b) by by left. csimpl.
  rewrite IH; [done|]. intros ??. apply Hm. by right.
Qed.

Lemma getStackBranchesView_names localeCompare stack_branches projectId stackId :
  name <$> getStackBranchesView localeCompare stack_branches projectId stackId
  = name <$> Js.sort (sortComparer localeCompare) (stack_branches projectId stackId).
Proof.
  unfold getStackBranchesView, selectAll. rewrite transformResponse_state.
  cbn [ids entities]. apply view_names. intros b Hb.
  rewrite sort_Permutation in Hb.
  destruct (stored_is_Some _ _ Hb) as [b' Hb']. exists b'. split; [done|].
  by apply stored_lookup in Hb' as [? _].
Qed.

Lemma getStackBranchesView_sort localeCompare stack_branches projectId stackId :
  NoDup (name <$> stack_branches projectId stackId) ->
  getStackBranchesView localeCompare stack_branches projectId stackId
  = Js.sort (sortComparer localeCompare) (stack_branches projectId stackId).
Proof.
  intros Hnd. unfold getStackBranchesView, selectAll. rewrite transformResponse_state.
  cbn [ids entities]. apply view_records. intros b Hb.
  rewrite sort_Permutation in Hb. by apply stored_NoDup.
Qed.

Lemma NoDup_names_eq (l : list WorkspaceBranch) (a b : WorkspaceBranch) :
  NoDup (name <$> l) -> a ∈ l -> b ∈ l -> name a = name b -> a = b.
Proof.
  intros Hnd Ha Hb Hn.
  apply list_elem_of_lookup in Ha as [i Hi]. apply list_elem_of_lookup in Hb as [j Hj].
  assert (i = j) as ->; [|congruence].
  apply (NoDup_lookup (name <$> l) i j (name a)); [done| |];
    rewrite list_lookup_fmap; [by rewrite Hi|by rewrite Hj, Hn].
Qed.

(** ** The sorted view *)

(** C7 as amended, normalized sorted view.  The cached result of
    [getStackBranches] holds the fetched branches under their names.  The
    list [getStackBranches] exposes is sorted by [localeCompare] on the
    names, given that [localeCompare] is a consistent comparison; it is
    in lexicographic order when [localeCompare] is the lexicographic
    order.  For fetched branches with names that differ, the list holds
    exactly these branches, those whose names [localeCompare] ties stand
    in the order they were fetched in, and a second fetch that is a
    permutation of the first is exposed as the same list when
    [localeCompare] ties no two different names of the fetched
    branches. *)
Theorem branches_keyed_and_sorted
    (localeCompare : string -> string -> Z)
    (stack_branches : string -> string -> list WorkspaceBranch)
    (projectId stackId : string) :
  (forall a b, (localeCompare a b <= 0 \/ localeCompare b a <= 0)%Z) ->
  (forall a b c,
      (localeCompare a b <= 0 -> localeCompare b c <= 0 -> localeCompare a c <= 0)%Z) ->
  let response := stack_branches projectId stackId in
  let cached := transformResponse localeCompare response in
  let view := getStackBranchesView localeCompare stack_branches projectId stackId in
  (forall k b, entities cached !! k = Some b -> name b = k /\ b ∈ response)
  /\ (forall b, b ∈ response -> is_Some (entities cached !! name b))
  /\ StronglySorted (fun a b => (localeCompare (name a) (name b) <= 0)%Z) view
  /\ ((forall a b, (localeCompare a b <= 0)%Z <-> String.le a b) ->
      StronglySorted (fun a b => String.le (name a) (name b)) view)
  /\ (NoDup (name <$> response) ->
      view ≡ₚ response
      /\ (forall n, filter (tiedWith localeCompare n) view
                    = filter (tiedWith localeCompare n) response)
      /\ (forall refetched : string -> string -> list WorkspaceBranch,
            refetched projectId stackId ≡ₚ response ->
            (forall a b,
                a ∈ response -> b ∈ response ->
                (localeCompare (name a) (name b) <= 0)%Z ->
                (localeCompare (name b) (name a) <= 0)%Z ->
                name a = name b) ->
            getStackBranchesView localeCompare refetched projectId stackId = view)).
Proof.
  intros Htotal Htrans response cached view.
  assert (StronglySorted (fun a b => (localeCompare (name a) (name b) <= 0)%Z) view)
    as Hsorted.
  { apply (StronglySorted_fmap_inv name (fun a b => (localeCompare a b <= 0)%Z)).
    subst view. rewrite getStackBranchesView_names.
    apply (StronglySorted_fmap name (fun a b => (sortComparer localeCompare a b <= 0)%Z));
      [done|].
    apply sort_sorted; intros; unfold sortComparer; eauto. }
  subst cached. rewrite transformResponse_state. cbn [entities].
  split; [apply stored_lookup|]. split; [apply stored_is_Some|].
  split; [done|]. split.
  { intros Hlex. eapply StronglySorted_impl; [|exact Hsorted].
    intros a b. apply Hlex. }
  intros Hnd. subst view. rewrite getStackBranchesView_sort by done.
  split; [apply sort_Permutation|]. split.
  { intros n. apply sort_stable. intros a b [Ha _] [_ Hb].
    unfold sortComparer. by apply (Htrans _ n). }
  intros refetched Hperm Hties.
  assert (NoDup (name <$> refetched projectId stackId)) as Hnd' by by rewrite Hperm.
  rewrite getStackBranchesView_sort by done.
  apply (StronglySorted_unique_strong (fun a b => (sortComparer localeCompare a b <= 0)%Z)).
  - intros a b Ha Hb Hab Hba. rewrite sort_Permutation in Ha, Hb. rewrite Hperm in Ha.
    apply (NoDup_names_eq response); [done..|]. by apply Hties.
  - apply sort_sorted; intros; unfold sortComparer; eauto.
  - apply sort_sorted; intros; unfold sortComparer; eauto.
  - by rewrite !sort_Permutation.
Qed.

(** The order of the code units is a consistent comparison, and it ties
    no two different strings. *)
Lemma codeUnitCompare_le (a b : string) :
  (codeUnitCompare a b <= 0)%Z <-> String.le a b.
Proof.
  unfold codeUnitCompare, String.le, String.leb.
  destruct (String.compare a b); cbn; split; (done || lia).
Qed.

Lemma codeUnitCompare_total (a b : string) :
  (codeUnitCompare a b <= 0 \/ codeUnitCompare b a <= 0)%Z.
Proof. rewrite !codeUnitCompare_le. apply (total String.le). Qed.

Lemma codeUnitCompare_trans (a b c : string) :
  (codeUnitCompare a b <= 0 -> codeUnitCompare b c <= 0 -> codeUnitCompare a c <= 0)%Z.
Proof. rewrite !codeUnitCompare_le. intros Hab Hbc. by trans b. Qed.

Lemma codeUnitCompare_antisym (a b : string) :
  (codeUnitCompare a b <= 0)%Z -> (codeUnitCompare b a <= 0)%Z -> a = b.
Proof. rewrite !codeUnitCompare_le. apply (anti_symm String.le). Qed.

Lemma branches_keyed_and_sorted_witness :
  getStackBranchesView codeUnitCompare
    (fun _ _ => [featureBranch "feature-1"; featureBranch "feature-2"])
    "project-1" "stack-1"
  = getStackBranchesView codeUnitCompare twoBranches "project-1" "stack-1"
  /\ StronglySorted
       (fun a b => String.le (name a) (name b))
       (getStackBranchesView codeUnitCompare twoBranches "project-1" "stack-1").
Proof.
  destruct (branches_keyed_and_sorted codeUnitCompare twoBranches "project-1" "stack-1"
              codeUnitCompare_total codeUnitCompare_trans)
    as (_ & _ & _ & Hlex & Hperm).
  split; [|apply Hlex, codeUnitCompare_le].
  destruct Hperm as (_ & _ & Hsame).
  - apply (bool_decide_unpack _). vm_compute. exact I.
  - apply Hsame.
    + apply perm_swap.
    + intros a b _ _. apply codeUnitCompare_antisym.
Defined.

(** C7 as the claim states it fails for names that [localeCompare] ties:
    with a comparison that takes the two spellings of "café" as equal,
    the two orders of fetching the two branches are exposed as two
    different lists, and the first of them is not in lexicographic
    order. *)
Lemma branches_tied_names_counterexample :
  let fetched := [featureBranch cafePrecomposed; featureBranch cafeDecomposed] in
  let refetched := [featureBranch cafeDecomposed; featureBranch cafePrecomposed] in
  (forall a b, (canonicalCompare a b <= 0 \/ canonicalCompare b a <= 0)%Z)
  /\ (forall a b c,
        (canonicalCompare a b <= 0 -> canonicalCompare b c <= 0
         -> canonicalCompare a c <= 0)%Z)
  /\ canonicalCompare cafePrecomposed cafeDecomposed = 0%Z
  /\ NoDup (name <$> fetched)
  /\ refetched ≡ₚ fetched
  /\ getStackBranchesView canonicalCompare (fun _ _ => fetched) "project-1" "stack-1"
     = fetched
  /\ getStackBranchesView canonicalCompare (fun _ _ => refetched) "project-1" "stack-1"
     = refetched
  /\ fetched <> refetched
  /\ ~ String.le cafePrecomposed cafeDecomposed.
Proof.
  cbn zeta.
  split; [intros a b; apply codeUnitCompare_total|].
  split; [intros a b c; apply codeUnitCompare_trans|].
  split; [by vm_compute|].
  split; [apply (bool_decide_unpack _); vm_compute; exact I|].
  split; [apply perm_swap|].
  split; [by vm_compute|]. split; [by vm_compute|].
  split; [discriminate|]. by vm_compute.
Qed.

(** ** [getBranchByIndex] *)

Lemma at_in_range {A} (l : list A) (index : Z) :
  (0 <= index < Z.of_nat (length l))%Z ->
  Js.at_ l index = l !! Z.to_nat index /\ is_Some (l !! Z.to_nat index).
Proof.
  intros Hi. unfold Js.at_. cbn zeta.
  destruct (Z.leb_spec 0 index); [|lia].
  destruct (Z.ltb_spec index 0); [lia|].
  destruct (Z.leb_spec (Z.of_nat (length l)) index); [lia|].
  split; [done|]. apply lookup_lt_is_Some_2. lia.
Qed.

Lemma at_from_end {A} (l : list A) (index : Z) :
  (- Z.of_nat (length l) <= index < 0)%Z ->
  Js.at_ l index = l !! Z.to_nat (Z.of_nat (length l) + index)
  /\ is_Some (l !! Z.to_nat (Z.of_nat (length l) + index)).
Proof.
  intros Hi. unfold Js.at_. cbn zeta.
  destruct (Z.leb_spec 0 index); [lia|].
  destruct (Z.ltb_spec (Z.of_nat (length l) + index) 0); [lia|].
  destruct (Z.leb_spec (Z.of_nat (length l)) (Z.of_nat (length l) + index)); [lia|].
  split; [done|]. apply lookup_lt_is_Some_2. lia.
Qed.

Lemma at_outside {A} (l : list A) (index : Z) :
  (index < - Z.of_nat (length l) \/ Z.of_nat (length l) <= index)%Z ->
  Js.at_ l index = None.
Proof.
  intros Hi. unfold Js.at_. cbn zeta.
  destruct (Z.leb_spec 0 index).
  - destruct (Z.ltb_spec index 0); [lia|].
    destruct (Z.leb_spec (Z.of_nat (length l)) index); [done|lia].
  - destruct (Z.ltb_spec (Z.of_nat (length l) + index) 0); [done|lia].
Qed.

(** C10 as amended, [getBranchByIndex] at the boundary.  For every project,
    stack and integer index, [getBranchByIndex] never throws: an index
    from 0 up to the length of the name-sorted view gives the branch at
    that position, an index from minus the length up to -1 gives the
    branch that far from the end of the view, and any other index gives
    [undefined]. *)
Theorem getBranchByIndex_at
    (localeCompare : string -> string -> Z)
    (stack_branches : string -> string -> list WorkspaceBranch)
    (projectId stackId : string) (index : Z) :
  let view := getStackBranchesView localeCompare stack_branches projectId stackId in
  let len := Z.of_nat (length view) in
  let result := getBranchByIndex localeCompare stack_branches projectId stackId index in
  ((0 <= index < len)%Z ->
     result = view !! Z.to_nat index /\ is_Some result)
  /\ ((- len <= index < 0)%Z ->
     result = view !! Z.to_nat (len + index) /\ is_Some result)
  /\ ((index < - len \/ len <= index)%Z -> result = None).
Proof.
  cbn zeta. unfold getBranchByIndex, getStackBranchesView.
  split; [|split].
  - intros Hi. destruct (at_in_range _ _ Hi) as [-> ?]. done.
  - intros Hi. destruct (at_from_end _ _ Hi) as [-> ?]. done.
  - apply at_outside.
Qed.

(** C10 as the claim states it fails on a negative index: -1 is outside of
    the positions of the view, and [getBranchByIndex] answers the last
    branch. *)
Lemma getBranchByIndex_negative_index_counterexample :
  let view := getStackBranchesView codeUnitCompare twoBranches "project-1" "stack-1" in
  view = [featureBranch "feature-1"; featureBranch "feature-2"]
  /\ ~ (0 <= -1 < Z.of_nat (length view))%Z
  /\ getBranchByIndex codeUnitCompare twoBranches "project-1" "stack-1" (-1)
     = Some (featureBranch "feature-2")
  /\ getBranchByIndex codeUnitCompare twoBranches "project-1" "stack-1" (-1) <> None.
Proof.
  cbn zeta. split; [by vm_compute|]. split; [lia|].
  assert (getBranchByIndex codeUnitCompare twoBranches "project-1" "stack-1" (-1)
          = Some (featureBranch "feature-2")) as -> by (by vm_compute).
  done.
Qed.

Lemma getBranchByIndex_at_witness :
  getBranchByIndex codeUnitCompare twoBranches "project-1" "stack-1" 2 = None
  /\ getBranchByIndex codeUnitCompare twoBranches "project-1" "stack-1" (-3) = None.
Proof.
  split.
  - apply (getBranchByIndex_at codeUnitCompare twoBranches "project-1" "stack-1" 2).
    right. vm_compute. discriminate.
  - apply (getBranchByIndex_at codeUnitCompare twoBranches "project-1" "stack-1" (-3)).
    left. vm_compute. reflexivity.
Defined.

End StackServiceProofs.

(* ===================================================================== *)
(** * More on the runs of [commit] *)
(* ===================================================================== *)

Module CommitRuns.

Import Js Mcp McpTool McpProofs Examples.

(** X1.  When the first stack whose head names include the target has
    more than one head and the record found under that name in its branch
    list is not archived, [commit] lists the stacks, lists the branches of
    that stack and dispatches; its outcome is the outcome of the
    dispatch. *)
Theorem commit_multi_head_dispatch
    (B : Backend) (params : CommitParams) (stacks : list Stack) (stack : Stack)
    (stackBranches : list StackBranch) (branch_ : StackBranch) :
  accepted params ->
  backend_listStacks B (project_directory params) = Return stacks ->
  firstStackWith (branch params) stacks = Some stack ->
  1 < length (heads stack) ->
  backend_listStackBranches B (project_directory params) (stack_id stack)
    = Return stackBranches ->
  find (isNamed (branch params)) stackBranches = Some branch_ ->
  archived branch_ = false ->
  run (commit B params) =
    (backend_execute B (project_directory params) (dispatchArgs params),
     [CallListStacks (project_directory params);
      CallListStackBranches (project_directory params) (stack_id stack);
      CallExecute (project_directory params) (dispatchArgs params)]).
Proof.
  intros Hok Hls Hf Hl Hlb Hfind Harch.
  destruct (commit_at_first_stack B params stacks stack) as [-> Hh]; try done.
  rewrite commitToStacks_multi_head by (done || lia).
  cbn zeta. rewrite Hlb. destruct stackBranches as [|b bs]; [done|].
  by rewrite Hfind, Harch.
Qed.

Lemma commit_multi_head_dispatch_witness :
  run (commit (backend [stackA; stackB] (Return branchesOfB))
              (params "feature-2" false ["src/a.ts"]))
  = (Return "",
     [CallListStacks "/repo"; CallListStackBranches "/repo" "B";
      CallExecute "/repo" (dispatchArgs (params "feature-2" false ["src/a.ts"]))]).
Proof.
  apply (commit_multi_head_dispatch
           (backend [stackA; stackB] (Return branchesOfB))
           (params "feature-2" false ["src/a.ts"]) [stackA; stackB] stackB branchesOfB
           {| name := "feature-2"; archived := false |}).
  - intros [H _]. discriminate H.
  - reflexivity.
  - reflexivity.
  - simpl. lia.
  - reflexivity.
  - reflexivity.
  - reflexivity.
Defined.

(** X2.  When the first stack whose head names include the target has
    more than one head and its non-empty branch list holds no record of
    that name, [commit] throws "Branch <name> not found in stack <id>"
    after the two listings and dispatches nothing. *)
Theorem commit_rejects_branch_missing_from_stack
    (B : Backend) (params : CommitParams) (stacks : list Stack) (stack : Stack)
    (stackBranches : list StackBranch) :
  accepted params ->
  backend_listStacks B (project_directory params) = Return stacks ->
  firstStackWith (branch params) stacks = Some stack ->
  1 < length (heads stack) ->
  backend_listStackBranches B (project_directory params) (stack_id stack)
    = Return stackBranches ->
  stackBranches <> [] ->
  Forall (fun b => name b <> branch params) stackBranches ->
  run (commit B params) =
    (Throw (mkError ("Branch " +:+ branch params +:+ " not found in stack "
                     +:+ stack_id stack)),
     [CallListStacks (project_directory params);
      CallListStackBranches (project_directory params) (stack_id stack)]).
Proof.
  intros Hok Hls Hf Hl Hlb Hne Hnone.
  destruct (commit_at_first_stack B params stacks stack) as [-> Hh]; try done.
  rewrite commitToStacks_multi_head by (done || lia).
  cbn zeta. rewrite Hlb. destruct stackBranches as [|b bs]; [done|].
  assert (find (isNamed (branch params)) (b :: bs) = None) as ->; [|done].
  clear Hlb Hne. induction Hnone as [|b' bs' Hb _ IH]; [done|].
  cbn [find]. unfold isNamed at 1.
  destruct (String.eqb_spec (name b') (branch params)); [done|exact IH].
Qed.

Lemma commit_rejects_branch_missing_from_stack_witness :
  run (commit (backend [stackA; stackB] (Return [ {| name := "feature-1"; archived := false |} ]))
              (params "feature-2" false []))
  = (Throw (mkError "Branch feature-2 not found in stack B"),
     [CallListStacks "/repo"; CallListStackBranches "/repo" "B"]).
Proof.
  apply (commit_rejects_branch_missing_from_stack
           (backend [stackA; stackB] (Return [ {| name := "feature-1"; archived := false |} ]))
           (params "feature-2" false []) [stackA; stackB] stackB
           [ {| name := "feature-1"; archived := false |} ]).
  - intros [H _]. discriminate H.
  - reflexivity.
  - reflexivity.
  - simpl. lia.
  - reflexivity.
  - discriminate.
  - apply (bool_decide_unpack _). vm_compute. exact I.
Defined.

(** X3.  A failure of the stack listing is the failure of [commit], as it
    is, and no other backend call is made. *)
Theorem commit_propagates_listStacks_failure
    (B : Backend) (params : CommitParams) (e : Error) :
  accepted params ->
  backend_listStacks B (project_directory params) = Throw e ->
  run (commit B params) = (Throw e, [CallListStacks (project_directory params)]).
Proof.
  intros Hok Hls. rewrite commit_closed_form. cbn zeta. rewrite Hls.
  destruct (all params && _) eqn:Ev; [|done].
  apply andb_true_iff in Ev as [Ha Hf]. destruct Hok. split; [done|].
  by destruct (filePaths params).
Qed.

Lemma commit_propagates_listStacks_failure_witness :
  run (commit {| backend_listStacks := fun _ => Throw (mkError "not a repository");
                 backend_listStackBranches := fun _ _ => Return [];
                 backend_execute := fun _ _ => Return "" |}
              (params "main" false []))
  = (Throw (mkError "not a repository"), [CallListStacks "/repo"]).
Proof.
  apply commit_propagates_listStacks_failure.
  - intros [H _]. discriminate H.
  - reflexivity.
Defined.

(** X4.  When the first stack whose head names include the target has
    more than one head and the listing of its branches fails, that
    failure is the failure of [commit], as it is, and nothing is
    dispatched. *)
Theorem commit_propagates_listStackBranches_failure
    (B : Backend) (params : CommitParams) (stacks : list Stack) (stack : Stack)
    (e : Error) :
  accepted params ->
  backend_listStacks B (project_directory params) = Return stacks ->
  firstStackWith (branch params) stacks = Some stack ->
  1 < length (heads stack) ->
  backend_listStackBranches B (project_directory params) (stack_id stack) = Throw e ->
  run (commit B params) =
    (Throw e,
     [CallListStacks (project_directory params);
      CallListStackBranches (project_directory params) (stack_id stack)]).
Proof.
  intros Hok Hls Hf Hl Hlb.
  destruct (commit_at_first_stack B params stacks stack) as [-> Hh]; try done.
  rewrite commitToStacks_multi_head by (done || lia).
  cbn zeta. by rewrite Hlb.
Qed.

Lemma commit_propagates_listStackBranches_failure_witness :
  run (commit (backend [stackA; stackB] (Throw (mkError "stack_branches failed")))
              (params "feature-1" false []))
  = (Throw (mkError "stack_branches failed"),
     [CallListStacks "/repo"; CallListStackBranches "/repo" "B"]).
Proof.
  apply (commit_propagates_listStackBranches_failure
           (backend [stackA; stackB] (Throw (mkError "stack_branches failed")))
           (params "feature-1" false []) [stackA; stackB] stackB).
  - intros [H _]. discriminate H.
  - reflexivity.
  - reflexivity.
  - simpl. lia.
  - reflexivity.
Defined.

(** The loop at one stack asks the backend for the branches of that stack
    and for the dispatch only. *)
Lemma commitToStacks_one_stack_ext (B B' : Backend) params args stack log :
  (forall dir id, backend_listStackBranches B dir id = backend_listStackBranches B' dir id) ->
  (forall dir a, backend_execute B dir a = backend_execute B' dir a) ->
  commitToStacks B params args [stack] log = commitToStacks B' params args [stack] log.
Proof.
  intros Hlb Hex. cbn [commitToStacks].
  destruct (existsb _ _); [|done].
  destruct (length _ =? 1).
  - unfold executeGitButlerCommand. by rewrite Hex.
  - unfold bind, listStackBranches. rewrite Hlb.
    destruct (backend_listStackBranches B' _ _) as [stackBranches|e]; [|done].
    destruct (length stackBranches =? 0); [done|].
    destruct (find _ _) as [branch_|]; [|done].
    destruct (archived branch_); [done|].
    unfold executeGitButlerCommand. by rewrite Hex.
Qed.

(** X5.  Only the first stack whose head names include the target counts:
    two stack listings with the same first such stack make [commit] run
    the same way, whatever other stacks they hold and in whatever order. *)
Theorem commit_uses_first_match_only
    (B B' : Backend) (params : CommitParams) (stacks stacks' : list Stack)
    (stack : Stack) :
  backend_listStacks B (project_directory params) = Return stacks ->
  backend_listStacks B' (project_directory params) = Return stacks' ->
  firstStackWith (branch params) stacks = Some stack ->
  firstStackWith (branch params) stacks' = Some stack ->
  (forall dir id, backend_listStackBranches B dir id = backend_listStackBranches B' dir id) ->
  (forall dir a, backend_execute B dir a = backend_execute B' dir a) ->
  run (commit B params) = run (commit B' params).
Proof.
  intros Hls Hls' Hf Hf' Hlb Hex. rewrite !commit_closed_form. cbn zeta.
  rewrite Hls, Hls', Hf, Hf'.
  destruct (all params && _); [done|].
  destruct stacks as [|s rest]; [discriminate Hf|].
  destruct stacks' as [|s' rest']; [discriminate Hf'|].
  by apply commitToStacks_one_stack_ext.
Qed.

(** Stack B first, then a second stack that also has the head
    [feature-2]: the second is never looked at. *)
Lemma commit_uses_first_match_only_witness :
  run (commit (backend [stackB; {| stack_id := "C"; heads := [ {| head_name := "feature-2" |} ] |}]
                       (Return branchesOfB))
              (params "feature-2" false []))
  = run (commit (backend [stackA; stackB] (Return branchesOfB))
                (params "feature-2" false [])).
Proof.
  apply (commit_uses_first_match_only _ _ _
           [stackB; {| stack_id := "C"; heads := [ {| head_name := "feature-2" |} ] |}]
           [stackA; stackB] stackB); reflexivity.
Defined.

(** X6.  The backend calls of any run of [commit] are, in this order, at
    most one stack listing, at most one branch listing, for the first
    stack whose head names include the target, and at most one dispatch,
    which comes last and carries the arguments of [dispatchArgs]. *)
Theorem commit_call_sequence (B : Backend) (params : CommitParams) :
  let dir := project_directory params in
  let log := (run (commit B params)).2 in
  log = []
  \/ log = [CallListStacks dir]
  \/ log = [CallListStacks dir; CallExecute dir (dispatchArgs params)]
  \/ exists stacks stack,
       backend_listStacks B dir = Return stacks
       /\ firstStackWith (branch params) stacks = Some stack
       /\ (log = [CallListStacks dir; CallListStackBranches dir (stack_id stack)]
           \/ log = [CallListStacks dir; CallListStackBranches dir (stack_id stack);
                     CallExecute dir (dispatchArgs params)]).
Proof.
  cbn zeta. rewrite commit_closed_form. cbn zeta.
  destruct (all params && _); [by left|].
  destruct (backend_listStacks B _) as [[|s rest]|e] eqn:Hls; [by right; left| |by right; left].
  destruct (firstStackWith _ _) as [stack|] eqn:Hf; [|by right; left].
  pose proof Hf as Hh. apply find_some in Hh as [_ Hh].
  destruct (decide (length (heads stack) = 1)) as [Hl|Hl].
  - rewrite commitToStacks_single_head by done. by right; right; left.
  - rewrite commitToStacks_multi_head by done. cbn zeta.
    right; right; right. exists (s :: rest), stack. split; [done|]. split; [done|].
    destruct (backend_listStackBranches B _ _) as [[|b bs]|e]; try by left.
    destruct (find _ _) as [branch_|]; [|by left].
    destruct (archived branch_); [by left|by right].
Qed.

(** X7.  A run of [commit] that returns has dispatched: its last backend
    call is the dispatch, and what it returns is what the dispatch
    returned. *)
Theorem commit_returns_dispatch_output
    (B : Backend) (params : CommitParams) (output : string) (log : list Call) :
  run (commit B params) = (Return output, log) ->
  backend_execute B (project_directory params) (dispatchArgs params) = Return output
  /\ last log = Some (CallExecute (project_directory params) (dispatchArgs params))
  /\ accepted params.
Proof.
  intros Hrun.
  assert (accepted params) as Hok.
  { intros [Ha Hf]. rewrite commit_closed_form in Hrun. cbn zeta in Hrun.
    rewrite Ha in Hrun. by destruct (filePaths params). }
  destruct (commit_run_shape B params) as [(e & log' & He & _)|(log' & He & _)];
    rewrite He in Hrun.
  - discriminate Hrun.
  - injection Hrun as Hout <-. split; [done|]. split; [|done]. apply last_snoc.
Qed.

Lemma commit_returns_dispatch_output_witness :
  backend_execute (backend [stackA; stackB] (Return branchesOfB)) "/repo"
    (dispatchArgs (params "main" false [])) = Return ""
  /\ last [CallListStacks "/repo";
           CallExecute "/repo" ["commit"; "--message"; "Fix the parser"; "-s"; "main"]]
     = Some (CallExecute "/repo" (dispatchArgs (params "main" false [])))
  /\ accepted (params "main" false []).
Proof.
  apply (commit_returns_dispatch_output (backend [stackA; stackB] (Return branchesOfB))
           (params "main" false []) ""
           [CallListStacks "/repo";
            CallExecute "/repo" ["commit"; "--message"; "Fix the parser"; "-s"; "main"]]).
  reflexivity.
Defined.

(** X8.  With no file paths, [all] changes nothing: the run of [commit] is
    the same with [all] set and unset, down to the arguments of the
    dispatch. *)
Theorem commit_all_without_paths_is_ignored
    (B : Backend) (params : CommitParams) (all_ : bool) :
  filePaths params = [] ->
  run (commit B (withAll all_ params)) = run (commit B params).
Proof.
  intros Hf. rewrite !commit_closed_form. cbn zeta.
  unfold withAll, commitArgs, notInAnyStackError. cbn [project_directory message all filePaths branch].
  rewrite Hf. cbn [length Nat.ltb Nat.leb]. rewrite !andb_false_r.
  reflexivity.
Qed.

Lemma commit_all_without_paths_is_ignored_witness :
  run (commit (backend [stackA; stackB] (Return branchesOfB))
              (withAll true (params "main" false [])))
  = run (commit (backend [stackA; stackB] (Return branchesOfB))
                (params "main" false [])).
Proof.
  apply commit_all_without_paths_is_ignored. reflexivity.
Defined.

(** ** The arguments of the dispatch tell the request *)

Import JsonDecode.

Lemma decodeChar_quoteChar (c : ascii) (rest : string) :
  decodeChar (quoteChar c +:+ rest) = Some (c, rest).
Proof. destruct c as [[] [] [] [] [] [] [] []]; reflexivity. Qed.

Lemma decodeChar_dquote (rest : string) : decodeChar (dquote +:+ rest) = None.
Proof. reflexivity. Qed.

(** An escaped text ends where its closing quote stands: it can be read
    back in one way only. *)
Lemma quoteBody_closed_inj (s1 s2 r1 r2 : string) :
  quoteBody s1 +:+ dquote +:+ r1 = quoteBody s2 +:+ dquote +:+ r2 ->
  s1 = s2 /\ r1 = r2.
Proof.
  revert s2. induction s1 as [|c1 s1 IH]; intros [|c2 s2] H;
    cbn [quoteBody] in H; rewrite ?append_assoc in H;
    try change (EmptyString +:+ dquote +:+ r1) with (dquote +:+ r1) in H;
    try change (EmptyString +:+ dquote +:+ r2) with (dquote +:+ r2) in H.
  - split; [done|]. by apply append_inj_l in H.
  - apply (f_equal decodeChar) in H.
    by rewrite decodeChar_quoteChar, decodeChar_dquote in H.
  - apply (f_equal decodeChar) in H.
    by rewrite decodeChar_quoteChar, decodeChar_dquote in H.
  - apply (f_equal decodeChar) in H. rewrite !decodeChar_quoteChar in H.
    injection H as -> H. destruct (IH _ H) as [-> ->]. done.
Qed.

Lemma wholeFileJson_shape (filePath : string) :
  wholeFileJson filePath
  = ("{" +:+ quoteJSONString "pathBytes" +:+ ":" +:+ dquote)
      +:+ quoteBody filePath +:+ dquote
      +:+ ("," +:+ quoteJSONString "hunkHeaders" +:+ ":[]}").
Proof. unfold wholeFileJson. cbn. unfold quoteJSONString. by rewrite !append_assoc. Qed.

Lemma wholeFileJson_inj (p1 p2 t1 t2 : string) :
  wholeFileJson p1 +:+ t1 = wholeFileJson p2 +:+ t2 -> p1 = p2 /\ t1 = t2.
Proof.
  rewrite !wholeFileJson_shape, !append_assoc. intros H.
  repeat apply append_inj_l in H.
  apply quoteBody_closed_inj in H as [-> H].
  repeat apply append_inj_l in H. done.
Qed.

Lemma wholeFileJson_head (p t : string) :
  exists rest, wholeFileJson p +:+ t = String "{" rest.
Proof. rewrite wholeFileJson_shape, !append_assoc. by eexists. Qed.

Lemma joinedFiles_cons (p : string) (paths : list string) :
  joinedFiles (p :: paths)
  = wholeFileJson p +:+ match paths with
                        | [] => "]"
                        | _ :: _ => "," +:+ joinedFiles paths
                        end.
Proof.
  unfold joinedFiles. destruct paths as [|q paths]; [done|].
  cbn [map String.concat]. by rewrite !append_assoc.
Qed.

Lemma joinedFiles_inj (paths1 paths2 : list string) :
  joinedFiles paths1 = joinedFiles paths2 -> paths1 = paths2.
Proof.
  revert paths2. induction paths1 as [|p1 paths1 IH]; intros [|p2 paths2] H.
  - done.
  - rewrite joinedFiles_cons in H. change (joinedFiles []) with "]" in H.
    destruct (wholeFileJson_head p2
      match paths2 with [] => "]" | _ :: _ => "," +:+ joinedFiles paths2 end) as [r Hr].
    rewrite Hr in H. discriminate H.
  - rewrite joinedFiles_cons in H. change (joinedFiles []) with "]" in H.
    destruct (wholeFileJson_head p1
      match paths1 with [] => "]" | _ :: _ => "," +:+ joinedFiles paths1 end) as [r Hr].
    rewrite Hr in H. discriminate H.
  - rewrite !joinedFiles_cons in H. apply wholeFileJson_inj in H as [-> H].
    f_equal. destruct paths1 as [|q1 paths1], paths2 as [|q2 paths2]; [done| | |].
    + change ("]" = String "," (joinedFiles (q2 :: paths2))) in H. discriminate H.
    + change (String "," (joinedFiles (q1 :: paths1)) = "]") in H. discriminate H.
    + apply IH. change (String "," (joinedFiles (q1 :: paths1))
                        = String "," (joinedFiles (q2 :: paths2))) in H.
      by injection H.
Qed.

Lemma diffSpecJson_joinedFiles (paths : list string) :
  stringify (JArray (map diffSpecToJson (buildDiffSpec paths)))
  = "[" +:+ joinedFiles paths.
Proof.
  rewrite buildDiffSpec_map. cbn [stringify]. unfold joinedFiles.
  by rewrite !map_map.
Qed.

(** X9.  The arguments of the dispatch tell the request: two sets of
    parameters with the same arguments have the same message, the same
    file paths, in the same order, and the same branch.  Nothing is lost
    in the JSON text of [--diff-spec], whatever characters the paths are
    made of. *)
Theorem dispatchArgs_inj (params params' : CommitParams) :
  dispatchArgs params = dispatchArgs params' ->
  message params = message params'
  /\ filePaths params = filePaths params'
  /\ branch params = branch params'.
Proof.
  unfold dispatchArgs, commitArgs. rewrite !diffSpecJson_joinedFiles.
  destruct (filePaths params) as [|p ps], (filePaths params') as [|p' ps'];
    cbn [length Nat.ltb Nat.leb app]; intros H; try discriminate H.
  - by injection H.
  - injection H as -> H ->. by apply joinedFiles_inj in H as ->.
Qed.

Lemma dispatchArgs_inj_witness :
  message (params "main" true ["a,b.ts"; "c.ts"]) = message (params "main" false ["a,b.ts"; "c.ts"])
  /\ filePaths (params "main" true ["a,b.ts"; "c.ts"])
     = filePaths (params "main" false ["a,b.ts"; "c.ts"])
  /\ branch (params "main" true ["a,b.ts"; "c.ts"]) = branch (params "main" false ["a,b.ts"; "c.ts"]).
Proof.
  apply dispatchArgs_inj. reflexivity.
Defined.

End CommitRuns.

(* ===================================================================== *)
(** * Properties of the tool and prompt handlers *)
(* ===================================================================== *)

Module ToolHandlers.

Import Js Mcp McpTool McpProofs Examples.

Section WithEnvironment.

Variable B : Backend.
Variable hasGitButlerExecutable : bool.
Variable commitInputSchema : JsonValue.
Variable parseCommitParams : gmap string JsValue -> Outcome CommitParams.

Local Abbreviation handler :=
  (getCommitToolRequestHandler B hasGitButlerExecutable commitInputSchema parseCommitParams).

Lemma isToolName_commit (toolName : string) :
  isToolName commitInputSchema toolName = true <-> toolName = "commit".
Proof.
  unfold isToolName, TOOL_LISTINGS. cbn [existsb tool_name]. rewrite orb_false_r.
  rewrite String.eqb_eq. split; congruence.
Qed.

Lemma handler_commit (params : gmap string JsValue) :
  hasGitButlerExecutable = true ->
  run (handler "commit" params) =
    match parseCommitParams params with
    | Throw e => (Return (Some (errorResult e)), [])
    | Return parsedParams =>
        match run (commit B parsedParams) with
        | (Return _, log) => (Return (Some commitSuccessful), log)
        | (Throw e, log) => (Return (Some (errorResult e)), log)
        end
    end.
Proof.
  intros ->. unfold run, getCommitToolRequestHandler, tryCatch, bind, liftOutcome.
  cbn [isToolName TOOL_LISTINGS existsb tool_name String.eqb Ascii.eqb Bool.eqb
       negb orb andb].
  destruct (parseCommitParams params) as [parsedParams|e]; [|done].
  by destruct (commit B parsedParams []) as [[output|e] log].
Qed.

Lemma handler_other (toolName : string) (params : gmap string JsValue) :
  toolName <> "commit" \/ hasGitButlerExecutable = false ->
  run (handler toolName params) = (Return None, []).
Proof.
  intros H. unfold run, getCommitToolRequestHandler.
  destruct (isToolName commitInputSchema toolName) eqn:Ht.
  - apply isToolName_commit in Ht. destruct H as [H| ->]; [done|].
    by rewrite orb_true_r.
  - done.
Qed.

End WithEnvironment.

(** ** The tool handler *)

(** X10.  With the executable at hand and parameters that parse, the tool
    handler makes the backend calls of [commit] and no other, and settles
    with "Commit successful" when [commit] returns, whatever the command
    printed, and with "Error: <message>" and [isError] when [commit]
    throws. *)
Theorem tool_handler_reports_commit
    (B : Backend) (commitInputSchema : JsonValue)
    (parseCommitParams : gmap string JsValue -> Outcome CommitParams)
    (params : gmap string JsValue) (parsedParams : CommitParams) :
  parseCommitParams params = Return parsedParams ->
  run (getCommitToolRequestHandler B true commitInputSchema parseCommitParams
         "commit" params)
  = (Return (Some match (run (commit B parsedParams)).1 with
                  | Return _ => commitSuccessful
                  | Throw e => errorResult e
                  end),
     (run (commit B parsedParams)).2).
Proof.
  intros Hp. rewrite handler_commit by done. rewrite Hp.
  by destruct (run (commit B parsedParams)) as [[output|e] log].
Qed.

Lemma tool_handler_reports_commit_witness :
  run (getCommitToolRequestHandler (backend [stackA; stackB] (Return branchesOfB)) true
         (JObject []) (fun _ => Return (params "feature-1" false [])) "commit" ∅)
  = (Return (Some {| content := [ {| type := "text";
                                     text := "Error: Branch feature-1 is archived" |} ];
                     isError := Some true |}),
     [CallListStacks "/repo"; CallListStackBranches "/repo" "B"]).
Proof.
  apply (tool_handler_reports_commit (backend [stackA; stackB] (Return branchesOfB))
           (JObject []) (fun _ => Return (params "feature-1" false [])) ∅
           (params "feature-1" false [])).
  reflexivity.
Defined.

(** X11.  With the executable at hand and parameters that do not parse,
    the tool handler settles with "Error: <message>" and [isError] for the
    error of the parser, and no backend call is made. *)
Theorem tool_handler_reports_invalid_params
    (B : Backend) (commitInputSchema : JsonValue)
    (parseCommitParams : gmap string JsValue -> Outcome CommitParams)
    (params : gmap string JsValue) (e : Error) :
  parseCommitParams params = Throw e ->
  run (getCommitToolRequestHandler B true commitInputSchema parseCommitParams
         "commit" params)
  = (Return (Some {| content := [ {| type := "text";
                                     text := "Error: " +:+ Js.message e |} ];
                     isError := Some true |}),
     []).
Proof. intros Hp. rewrite handler_commit by done. by rewrite Hp. Qed.

Lemma tool_handler_reports_invalid_params_witness :
  run (getCommitToolRequestHandler (backend [stackA; stackB] (Return branchesOfB)) true
         (JObject []) (fun _ => Throw (mkError "Required")) "commit" ∅)
  = (Return (Some {| content := [ {| type := "text"; text := "Error: Required" |} ];
                     isError := Some true |}),
     []).
Proof.
  apply (tool_handler_reports_invalid_params
           (backend [stackA; stackB] (Return branchesOfB))
           (JObject []) (fun _ => Throw (mkError "Required")) ∅ (mkError "Required")).
  reflexivity.
Defined.

(** X12.  The promise of the tool handler never rejects: for every tool
    name, parameters, parser, backend and answer about the executable, the
    handler settles with a value. *)
Theorem tool_handler_never_throws
    (B : Backend) (hasGitButlerExecutable : bool) (commitInputSchema : JsonValue)
    (parseCommitParams : gmap string JsValue -> Outcome CommitParams)
    (toolName : string) (params : gmap string JsValue) :
  exists result,
    (run (getCommitToolRequestHandler B hasGitButlerExecutable commitInputSchema
            parseCommitParams toolName params)).1 = Return result.
Proof.
  destruct (decide (toolName = "commit")) as [->|Hne].
  - destruct hasGitButlerExecutable.
    + rewrite handler_commit by done.
      destruct (parseCommitParams params) as [parsedParams|e]; [|by eexists].
      destruct (run (commit B parsedParams)) as [[output|e] log]; by eexists.
    + rewrite handler_other by by right. by eexists.
  - rewrite handler_other by by left. by eexists.
Qed.

(** X13.  The tool handler and the tool listing agree: the handler
    settles with a result, rather than with [null], exactly for the names
    that [getCommitToolListing] lists, so for no name at all without the
    executable; for any other name it settles with [null] before anything
    is parsed or asked of the backend. *)
Theorem tool_handler_answers_listed_tools
    (B : Backend) (hasGitButlerExecutable : bool) (commitInputSchema : JsonValue)
    (parseCommitParams : gmap string JsValue -> Outcome CommitParams)
    (toolName : string) (params : gmap string JsValue) :
  let listed :=
    toolName ∈ map tool_name (getCommitToolListing hasGitButlerExecutable commitInputSchema) in
  let settled :=
    run (getCommitToolRequestHandler B hasGitButlerExecutable commitInputSchema
           parseCommitParams toolName params) in
  ((exists result, settled.1 = Return (Some result)) <-> listed)
  /\ (~ listed -> settled = (Return None, [])).
Proof.
  cbn zeta. unfold getCommitToolListing, TOOL_LISTINGS.
  destruct (decide (toolName = "commit")) as [->|Hne].
  - destruct hasGitButlerExecutable; cbn [negb map tool_name].
    + split; [|intros []; apply list_elem_of_here].
      split; [intros _; apply list_elem_of_here|intros _].
      rewrite handler_commit by done.
      destruct (parseCommitParams params) as [parsedParams|e]; [|by eexists].
      destruct (run (commit B parsedParams)) as [[output|e] log]; by eexists.
    + rewrite handler_other by by right. split; [|done].
      split; [by intros [r [=]]|]. by intros ?%elem_of_nil.
  - rewrite handler_other by by left. split; [|done].
    split; [by intros [r [=]]|].
    destruct hasGitButlerExecutable; cbn [negb map tool_name].
    + by intros ?%list_elem_of_singleton.
    + by intros ?%elem_of_nil.
Qed.

(** X14.  The tool handler reports success only after a dispatch that
    returned: when it settles with a result without [isError], the result
    is "Commit successful", the parameters parsed, and the last backend
    call was the dispatch of [commit] for them, which returned. *)
Theorem tool_handler_success_means_dispatch
    (B : Backend) (hasGitButlerExecutable : bool) (commitInputSchema : JsonValue)
    (parseCommitParams : gmap string JsValue -> Outcome CommitParams)
    (toolName : string) (params : gmap string JsValue)
    (result : CallToolResult) (log : list Call) :
  run (getCommitToolRequestHandler B hasGitButlerExecutable commitInputSchema
         parseCommitParams toolName params) = (Return (Some result), log) ->
  isError result = None ->
  result = commitSuccessful
  /\ exists parsedParams output,
       parseCommitParams params = Return parsedParams
       /\ backend_execute B (project_directory parsedParams) (dispatchArgs parsedParams)
          = Return output
       /\ last log = Some (CallExecute (project_directory parsedParams)
                             (dispatchArgs parsedParams)).
Proof.
  intros Hrun Hok.
  destruct (decide (toolName = "commit")) as [->|Hne];
    [|by rewrite handler_other in Hrun by by left].
  destruct hasGitButlerExecutable;
    [|by rewrite handler_other in Hrun by by right].
  rewrite handler_commit in Hrun by done.
  destruct (parseCommitParams params) as [parsedParams|e] eqn:Hp.
  - destruct (commit_run_shape B parsedParams) as [(e & l & He & _)|(l & He & _)];
      rewrite He in Hrun.
    + injection Hrun as <- _. discriminate Hok.
    + destruct (backend_execute B _ _) as [output|e] eqn:Hex.
      * injection Hrun as <- <-. split; [done|].
        exists parsedParams, output. split; [done|]. split; [done|]. apply last_snoc.
      * injection Hrun as <- _. discriminate Hok.
  - injection Hrun as <- _. discriminate Hok.
Qed.

Lemma tool_handler_success_means_dispatch_witness :
  commitSuccessful = commitSuccessful
  /\ exists parsedParams output,
       Return (params "main" false []) = Return parsedParams
       /\ backend_execute (backend [stackA; stackB] (Return branchesOfB))
            (project_directory parsedParams) (dispatchArgs parsedParams) = Return output
       /\ last [CallListStacks "/repo";
                CallExecute "/repo" ["commit"; "--message"; "Fix the parser"; "-s"; "main"]]
          = Some (CallExecute (project_directory parsedParams) (dispatchArgs parsedParams)).
Proof.
  apply (tool_handler_success_means_dispatch
           (backend [stackA; stackB] (Return branchesOfB)) true (JObject [])
           (fun _ => Return (params "main" false [])) "commit" ∅ commitSuccessful
           [CallListStacks "/repo";
            CallExecute "/repo" ["commit"; "--message"; "Fix the parser"; "-s"; "main"]]);
    reflexivity.
Defined.

(** ** The prompt *)

Lemma prop_insert_ne (params : gmap string JsValue) (key other : string) (v : JsValue) :
  other <> key -> prop (<[other := v]> params) key = prop params key.
Proof. intros Hne. unfold prop. by rewrite lookup_insert_ne. Qed.

(** The prompt, from the disambiguation it carries. *)
Lemma buildCommitPrompt_text (params : gmap string JsValue) :
  buildCommitPrompt params =
    {| messages :=
         [ {| role := "user";
              prompt_content :=
                {| type := "text";
                   text := commitInstructions +:+
                           (if String.eqb (disambiguationText params) "" then ""
                            else newline +:+ "Importantly: " +:+ disambiguationText params) |}
           |} ] |}.
Proof.
  unfold buildCommitPrompt, isCommitPromptParams, disambiguationText.
  by destruct (prop params "disambiguation").
Qed.

(** X15.  The prompt reads the key [disambiguation] and no other: setting
    any other key of the request leaves the prompt as it was. *)
Theorem buildCommitPrompt_ignores_other_keys
    (params : gmap string JsValue) (key : string) (v : JsValue) :
  key <> "disambiguation" ->
  buildCommitPrompt (<[key := v]> params) = buildCommitPrompt params.
Proof.
  intros Hne. rewrite !buildCommitPrompt_text. unfold disambiguationText.
  by rewrite prop_insert_ne.
Qed.

Lemma buildCommitPrompt_ignores_other_keys_witness :
  buildCommitPrompt (<["branch" := JsString "main"]> ∅) = buildCommitPrompt ∅.
Proof. apply buildCommitPrompt_ignores_other_keys. discriminate. Defined.

(** X16.  Two requests get the same prompt exactly when they carry the
    same disambiguation, where a missing one, one that is not a string
    and the empty string all count as none: the prompt then is the bare
    instructions, and otherwise the instructions followed by
    "Importantly: " and the disambiguation. *)
Theorem buildCommitPrompt_tells_disambiguation (params params' : gmap string JsValue) :
  buildCommitPrompt params = buildCommitPrompt params'
  <-> disambiguationText params = disambiguationText params'.
Proof.
  rewrite !buildCommitPrompt_text. split; [|by intros ->].
  intros [= H]. apply append_inj_l in H.
  destruct (String.eqb_spec (disambiguationText params) ""),
           (String.eqb_spec (disambiguationText params') ""); try congruence.
  - discriminate H.
  - discriminate H.
  - by do 2 apply append_inj_l in H.
Qed.

(** X17.  The prompt handler and the prompt listing agree: the handler
    settles with a prompt, rather than with [null], exactly for the names
    that [getCommitToolPrompts] lists, so for no name at all without the
    executable; and the prompt it settles with is that of
    [buildCommitPrompt]. *)
Theorem prompt_handler_answers_listed_prompts
    (hasGitButlerExecutable : bool) (promptName : string)
    (params : gmap string JsValue) :
  let settled := getCommitToolPromptRequestHandler hasGitButlerExecutable promptName params in
  (is_Some settled
   <-> promptName ∈ map prompt_name (getCommitToolPrompts hasGitButlerExecutable))
  /\ (forall result, settled = Some result -> result = buildCommitPrompt params).
Proof.
  cbn zeta. unfold getCommitToolPromptRequestHandler, getCommitToolPrompts, isPromptName, PROMPTS.
  cbn [existsb prompt_name map]. rewrite orb_false_r.
  destruct (String.eqb_spec "commit" promptName) as [<-|Hne].
  - destruct hasGitButlerExecutable; cbn [negb orb map prompt_name String.eqb Ascii.eqb Bool.eqb andb].
    + split; [|by intros result [= <-]].
      split; [intros _; apply list_elem_of_here|by eexists].
    + split; [|done]. split; [by intros [r [=]]|by intros ?%elem_of_nil].
  - cbn [negb orb]. split; [|done]. split; [by intros [r [=]]|].
    destruct hasGitButlerExecutable; cbn [negb map prompt_name].
    + intros ?%list_elem_of_singleton. congruence.
    + by intros ?%elem_of_nil.
Qed.

End ToolHandlers.

(* ===================================================================== *)
(** * More on the endpoints of the [StackService] *)
(* ===================================================================== *)

Module EndpointProperties.

Import StackService StackExamples StackServiceProofs.

(** X18.  Which mutation names a tag of which query, by the [providesTags]
    and [invalidatesTags] of the endpoints: [createStack] names the tag of
    [getStacks], [createCommit] and [updateCommitMessage] name the tag of
    [getStackBranches], and that is all.  No mutation names the tag of
    [getCommitChanges], and no query provides the tag [Commit]. *)
Theorem endpoints_sharing_a_tag (query mutation : Endpoint) :
  (exists t, t ∈ providesTags query /\ t ∈ invalidatesTags mutation)
  <-> (query = getStacks /\ mutation = createStack)
      \/ (query = getStackBranches
          /\ (mutation = createCommit \/ mutation = updateCommitMessage)).
Proof.
  rewrite <- overlaps_spec.
  destruct query, mutation;
    match goal with
    | |- ?o = true <-> _ => let v := eval vm_compute in o in change o with v
    end;
    split; intros H; try discriminate H; try reflexivity;
    try (by left); try (by right; split; [|left]); try (by right; split; [|right]);
    exfalso; intuition discriminate.
Qed.

(** X19.  [getBranchByIndex] reads the view from either end: an index
    within the view and the same index less the length of the view give
    the same branch, and there is one. *)
Theorem getBranchByIndex_from_either_end
    (localeCompare : string -> string -> Z)
    (stack_branches : string -> string -> list WorkspaceBranch)
    (projectId stackId : string) (index : Z) :
  let len := Z.of_nat (length (getStackBranchesView localeCompare stack_branches
                                 projectId stackId)) in
  (0 <= index < len)%Z ->
  getBranchByIndex localeCompare stack_branches projectId stackId (index - len)
  = getBranchByIndex localeCompare stack_branches projectId stackId index
  /\ is_Some (getBranchByIndex localeCompare stack_branches projectId stackId index).
Proof.
  cbn zeta. unfold getBranchByIndex, getStackBranchesView. intros Hi.
  destruct (at_in_range _ _ Hi) as [-> Hsome].
  split; [|done].
  set (view := selectAll (transformResponse localeCompare
                            (stack_branches projectId stackId))) in *.
  destruct (at_from_end view (index - Z.of_nat (length view))) as [-> _]; [lia|].
  f_equal. lia.
Qed.

Lemma getBranchByIndex_from_either_end_witness :
  getBranchByIndex codeUnitCompare twoBranches "project-1" "stack-1" (1 - 2)
  = getBranchByIndex codeUnitCompare twoBranches "project-1" "stack-1" 1
  /\ is_Some (getBranchByIndex codeUnitCompare twoBranches "project-1" "stack-1" 1).
Proof.
  apply (getBranchByIndex_from_either_end codeUnitCompare twoBranches
           "project-1" "stack-1" 1).
  split; [lia|]. vm_compute. reflexivity.
Defined.

End EndpointProperties.
